(** * Playwright test impact analyzer: a shallow embedding of
      [src/dist/analyzer.js] and the properties of its analysis.

    JavaScript strings are sequences of UTF-16 code units; they are
    modelled as lists of code units ([N]).  The version-control
    collaborator (the [execSync] calls to git) is a parameter of the
    development: a command that exits with an error is an exception in
    the source and [None] (or [false]) here. *)

From Stdlib Require Import NArith String Ascii.
From stdpp Require Import base option list gmap sorting.

Set Warnings "-clear-no-such-hyp".
Set Default Proof Using "Type".

Local Open Scope N_scope.
Local Open Scope nat_scope.
Local Open Scope list_scope.

(** ** Strings *)

Abbreviation str := (list N).

(** ASCII literals, written as Rocq strings. *)
Definition u (s : string) : str :=
  map N_of_ascii (list_ascii_of_string s).

Definition DQUOTE : N := 34%N.
Definition SQUOTE : N := 39%N.
Definition BQUOTE : N := 96%N.
Definition SLASH : N := 47%N.
Definition DOT : N := 46%N.
Definition NL : N := 10%N.
Definition TAB : N := 9%N.
Definition LBRACE : N := 123%N.
Definition RBRACE : N := 125%N.

Definition str_eqb (a b : str) : bool := bool_decide (a = b).

(** [String.prototype.startsWith] for a one-character needle. *)
Definition startsWith (s : str) (c : N) : bool :=
  match s with
  | x :: _ => N.eqb x c
  | [] => false
  end.

(** [s.split(sep)] for a one-character separator: never the empty list. *)
Fixpoint split (sep : N) (s : str) : list str :=
  match s with
  | [] => [[]]
  | c :: s' =>
      if N.eqb c sep then [] :: split sep s'
      else match split sep s' with
           | l :: ls => (c :: l) :: ls
           | [] => [[c]]
           end
  end.

(** [ls.join(sep)] for a one-character separator. *)
Fixpoint join (sep : N) (ls : list str) : str :=
  match ls with
  | [] => []
  | [l] => l
  | l :: ls' => l ++ sep :: join sep ls'
  end.

(** White space of ECMAScript: the class [\s] of regular expressions and
    what [trim] strips (WhiteSpace and LineTerminator). *)
Definition is_space (c : N) : bool :=
  (N.leb 9 c && N.leb c 13) || N.eqb c 32 || N.eqb c 160 || N.eqb c 5760
  || (N.leb 8192 c && N.leb c 8202) || N.eqb c 8232 || N.eqb c 8233
  || N.eqb c 8239 || N.eqb c 8287 || N.eqb c 12288 || N.eqb c 65279.

(** The class [\w]: ASCII letters, digits and the underscore. *)
Definition is_word (c : N) : bool :=
  (N.leb 48 c && N.leb c 57) || (N.leb 65 c && N.leb c 90)
  || (N.leb 97 c && N.leb c 122) || N.eqb c 95.

(** Line terminators, which [.] does not match. *)
Definition is_line_terminator (c : N) : bool :=
  N.eqb c 10 || N.eqb c 13 || N.eqb c 8232 || N.eqb c 8233.

Fixpoint trimStart (s : str) : str :=
  match s with
  | c :: s' => if is_space c then trimStart s' else s
  | [] => []
  end.

Definition trimEnd (s : str) : str := rev (trimStart (rev s)).

Definition trim (s : str) : str := trimEnd (trimStart s).

(** ** Regular expressions

    A backtracking matcher in the order of ECMAScript: the successes of a
    pattern at a position are listed by priority, the first one is the
    match that [exec] reports. *)

Inductive cclass :=
| CChar (c : N)            (* a literal character *)
| CSpace                   (* \s *)
| CWord                    (* \w *)
| CAny                     (* . *)
| COneOf (l : list N)      (* [...] *)
| CNoneOf (l : list N).    (* [^...] *)

Inductive regex :=
| REps
| RCls (k : cclass)
| REnd                                  (* $ *)
| RSeq (r1 r2 : regex)
| RAlt (r1 r2 : regex)                  (* r1|r2 *)
| RStar (greedy : bool) (r : regex)     (* r* and r*? *)
| RGroup (i : nat) (r : regex).         (* the i-th capturing group *)

Definition in_class (k : cclass) (c : N) : bool :=
  match k with
  | CChar x => N.eqb c x
  | CSpace => is_space c
  | CWord => is_word c
  | CAny => negb (is_line_terminator c)
  | COneOf l => bool_decide (c ∈ l)
  | CNoneOf l => negb (bool_decide (c ∈ l))
  end.

Definition captures := list (nat * str).

Fixpoint capture (i : nat) (c : captures) : option str :=
  match c with
  | [] => None
  | (j, s) :: c' => if Nat.eqb i j then Some s else capture i c'
  end.

(** The iterations of a repetition whose body matches as [step] does:
    an iteration that consumes nothing is dropped, so the length of the
    subject bounds their number. *)
Fixpoint star_iter (greedy : bool) (step : str -> captures -> list (str * captures))
    (n : nat) (s : str) (c : captures) : list (str * captures) :=
  match n with
  | 0 => [(s, c)]
  | S n' =>
      let more :=
        flat_map (fun m => if length (fst m) <? length s
                           then star_iter greedy step n' (fst m) (snd m) else [])
                 (step s c) in
      if greedy then more ++ [(s, c)] else (s, c) :: more
  end.

Fixpoint rmatch (r : regex) (s : str) (c : captures) : list (str * captures) :=
  match r with
  | REps => [(s, c)]
  | RCls k =>
      match s with
      | x :: s' => if in_class k x then [(s', c)] else []
      | [] => []
      end
  | REnd => match s with [] => [(s, c)] | _ => [] end
  | RSeq r1 r2 =>
      flat_map (fun m => rmatch r2 (fst m) (snd m)) (rmatch r1 s c)
  | RAlt r1 r2 => rmatch r1 s c ++ rmatch r2 s c
  | RGroup i r1 =>
      map (fun m => (fst m, (i, take (length s - length (fst m)) s) :: snd m))
          (rmatch r1 s c)
  | RStar greedy r1 => star_iter greedy (rmatch r1) (length s) s c
  end.

(** Derived forms. *)
Definition RChar (c : N) : regex := RCls (CChar c).
Definition RLit (s : string) : regex := foldr (fun c r => RSeq (RChar c) r) REps (u s).
Definition RPlus (greedy : bool) (r : regex) : regex := RSeq r (RStar greedy r).
Definition ROpt (r : regex) : regex := RAlt r REps.
Definition RCat (rs : list regex) : regex := foldr RSeq REps rs.

Record rmatch_result := {
  m_index : nat;       (* where the match starts *)
  m_end : nat;         (* where it ends: the next lastIndex of a global pattern *)
  m_groups : captures;
}.

(** The leftmost match in the suffix [s] of the subject that starts at
    index [i]. *)
Fixpoint search (r : regex) (s : str) (i : nat) : option rmatch_result :=
  match rmatch r s [] with
  | m :: _ =>
      Some {| m_index := i; m_end := i + (length s - length (fst m));
              m_groups := snd m |}
  | [] =>
      match s with
      | [] => None
      | _ :: s' => search r s' (S i)
      end
  end.

(** [pattern.lastIndex = lastIndex; pattern.exec(s)]. *)
Definition regex_exec (r : regex) (s : str) (lastIndex : nat) : option rmatch_result :=
  if length s <? lastIndex then None else search r (drop lastIndex s) lastIndex.

(** [pattern.test(s)] for a pattern without flags. *)
Definition regex_test (r : regex) (s : str) : bool :=
  match regex_exec r s 0 with Some _ => true | None => false end.

(** The groups of [while ((match = pattern.exec(s)) !== null)] for a
    global pattern, [lastIndex] moving to the end of each match.  The
    patterns of this program match no empty string, so the subject's
    length bounds the number of rounds. *)
Fixpoint exec_loop (fuel : nat) (r : regex) (s : str) (lastIndex : nat) : list rmatch_result :=
  match fuel with
  | 0 => []
  | S fuel' =>
      match regex_exec r s lastIndex with
      | None => []
      | Some m => m :: exec_loop fuel' r s (m_end m)
      end
  end.

Definition exec_all (r : regex) (s : str) : list rmatch_result :=
  exec_loop (S (length s)) r s 0.

(** [match[1]]. *)
Definition group1 (m : rmatch_result) : str :=
  default [] (capture 1 (m_groups m)).

(** ** Node's [path] module (POSIX flavour)

    The resolver calls [path.dirname], [path.join] and [path.normalize];
    they are library code, modelled here on path segments. *)

Module path.

(** [normalizeString]: drops empty and [.] segments, and resolves [..]
    against the segment before it. *)
Fixpoint normalizeSegments (allowAboveRoot : bool) (acc : list str) (segs : list str) : list str :=
  match segs with
  | [] => rev acc
  | seg :: segs' =>
      if str_eqb seg [] || str_eqb seg (u ".") then
        normalizeSegments allowAboveRoot acc segs'
      else if str_eqb seg (u "..") then
        match acc with
        | last :: acc' =>
            if str_eqb last (u "..")
            then normalizeSegments allowAboveRoot
                   (if allowAboveRoot then seg :: acc else acc) segs'
            else normalizeSegments allowAboveRoot acc' segs'
        | [] =>
            normalizeSegments allowAboveRoot
              (if allowAboveRoot then [seg] else []) segs'
        end
      else normalizeSegments allowAboveRoot (seg :: acc) segs'
  end.

Definition normalize (p : str) : str :=
  match p with
  | [] => u "."
  | _ =>
      let isAbsolute := startsWith p SLASH in
      let trailingSeparator := startsWith (rev p) SLASH in
      let body := join SLASH (normalizeSegments (negb isAbsolute) [] (split SLASH p)) in
      match body with
      | [] =>
          if isAbsolute then u "/"
          else if trailingSeparator then u "./" else u "."
      | _ =>
          let body' := if trailingSeparator then body ++ [SLASH] else body in
          if isAbsolute then SLASH :: body' else body'
      end
  end.

(** [path.join(a, b)]: empty arguments are skipped. *)
Definition join (a b : str) : str :=
  match a, b with
  | [], [] => u "."
  | [], _ => normalize b
  | _, [] => normalize a
  | _, _ => normalize (a ++ SLASH :: b)
  end.

Fixpoint dropWhile (f : N -> bool) (s : str) : str :=
  match s with
  | c :: s' => if f c then dropWhile f s' else s
  | [] => []
  end.

(** [path.dirname]: the path up to the slash before its last segment;
    the scan from the right never looks at the first character. *)
Definition dirname (p : str) : str :=
  match p with
  | [] => u "."
  | c0 :: rest =>
      let hasRoot := N.eqb c0 SLASH in
      let r1 := dropWhile (fun c => N.eqb c SLASH) (rev rest) in
      let r2 := dropWhile (fun c => negb (N.eqb c SLASH)) r1 in
      match r2 with
      | [] => if hasRoot then u "/" else u "."
      | _ :: r3 =>
          if hasRoot && Nat.eqb (length r2) 1 then u "//"
          else c0 :: rev r3
      end
  end.

End path.

(** ** Data model *)

Inductive Kind := test | describe.
Inductive ChangeType := added | removed | modified.
Inductive FileChangeType := file_added | file_deleted | file_modified | file_renamed.
Inductive ImpactType := direct | indirect.

#[global] Instance Kind_eq_dec : EqDecision Kind.
Proof. solve_decision. Defined.
#[global] Instance ChangeType_eq_dec : EqDecision ChangeType.
Proof. solve_decision. Defined.
#[global] Instance FileChangeType_eq_dec : EqDecision FileChangeType.
Proof. solve_decision. Defined.
#[global] Instance ImpactType_eq_dec : EqDecision ImpactType.
Proof. solve_decision. Defined.

(** What [extractTestsFromContent] pushes. *)
Record TestInfo := {
  ti_testName : str;
  ti_lineNumber : nat;
  ti_content : str;
  ti_kind : Kind;
}.

(** What [extractImports] pushes. *)
Record ImportInfo := {
  source : str;
  im_lineNumber : nat;
}.

(** The records of the impact lists; [impactedBy] is absent from the
    direct ones. *)
Record TestChange := {
  type : ChangeType;
  testName : str;
  filePath : str;
  lineNumber : nat;
  changeKind : Kind;
  impactType : ImpactType;
  impactedBy : option str;
}.

(** What [getChangedFiles] pushes. *)
Record ChangedFile := {
  cf_path : str;
  cf_changeType : FileChangeType;
}.

(** The entries of [changedFiles] in the result; [testChanges] is set
    for test files only. *)
Record FileChange := {
  fc_filePath : str;
  fc_changeType : FileChangeType;
  isTestFile : bool;
  testChanges : option (list TestChange);
}.

Record Summary := {
  totalFilesChanged : nat;
  testFilesChanged : nat;
  testsAdded : nat;
  testsRemoved : nat;
  testsModified : nat;
  testsIndirectlyImpacted : nat;
}.

Record ImpactAnalysisResult := {
  baseCommit : str;
  headCommit : str;
  changedFiles : list FileChange;
  directlyImpactedTests : list TestChange;
  indirectlyImpactedTests : list TestChange;
  summary : Summary;
}.

#[global] Instance TestInfo_eq_dec : EqDecision TestInfo.
Proof. solve_decision. Defined.
#[global] Instance TestChange_eq_dec : EqDecision TestChange.
Proof. solve_decision. Defined.
#[global] Instance ChangedFile_eq_dec : EqDecision ChangedFile.
Proof. solve_decision. Defined.

(** ** The analyzer: the pure part *)

(** [isPlaywrightTestFile]: the three patterns, tried in order. *)
Definition sourceExtensions : regex :=
  RAlt (RLit "ts") (RAlt (RLit "js") (RAlt (RLit "tsx") (RLit "jsx"))).

Definition testFilePatterns : list regex := [
  (* /\.spec\.(ts|js|tsx|jsx)$/ *)
  RCat [RLit ".spec."; RGroup 1 sourceExtensions; REnd];
  (* /\.test\.(ts|js|tsx|jsx)$/ *)
  RCat [RLit ".test."; RGroup 1 sourceExtensions; REnd];
  (* /playwright\.(ts|js|config\.(ts|js))$/ *)
  RCat [RLit "playwright.";
        RGroup 1 (RAlt (RLit "ts") (RAlt (RLit "js")
                   (RCat [RLit "config."; RGroup 2 (RAlt (RLit "ts") (RLit "js"))])));
        REnd]
].

Definition isPlaywrightTestFile (filePath : str) : bool :=
  existsb (fun pattern => regex_test pattern filePath) testFilePatterns.

(** The patterns of [extractTestsFromContent]; [head] is the text before
    the parenthesis: /head\s*\(\s*[Q](.+?)[Q]/g, where [Q] stands for the
    three quote characters (single, double, backquote). *)
Definition quotes3 : cclass := COneOf [SQUOTE; DQUOTE; BQUOTE].

Definition declPattern (head : string) : regex :=
  RCat [RLit head; RStar true (RCls CSpace); RChar 40%N; RStar true (RCls CSpace);
        RCls quotes3; RGroup 1 (RPlus false (RCls CAny)); RCls quotes3].

Definition testPatterns : list (regex * Kind) := [
  (declPattern "test", test);
  (declPattern "test.only", test);
  (declPattern "test.skip", test)
].

Definition describePatterns : list (regex * Kind) := [
  (declPattern "test.describe", describe);
  (declPattern "test.describe.only", describe);
  (declPattern "test.describe.skip", describe)
].

Definition allPatterns : list (regex * Kind) := testPatterns ++ describePatterns.

(** The inner loop of [extractTestBody]: the braces of one line, on the
    state (braceDepth, started). *)
Definition countChar (st : Z * bool) (char : N) : Z * bool :=
  if N.eqb char LBRACE then (fst st + 1, true)%Z
  else if N.eqb char RBRACE then (fst st - 1, snd st)%Z
  else st.

Definition countBraces (line : str) (st : Z * bool) : Z * bool :=
  fold_left countChar line st.

(** The outer loop of [extractTestBody] over the lines from [startLine]
    on: push the line, count, stop on a closed body or past the limit. *)
Fixpoint extractTestBody_loop (rest : list str) (bodyLines : list str)
    (st : Z * bool) : list str :=
  match rest with
  | [] => bodyLines
  | line :: rest' =>
      let bodyLines' := bodyLines ++ [line] in
      let st' := countBraces line st in
      if snd st' && Z.eqb (fst st') 0 then bodyLines'
      else if 500 <? length bodyLines' then bodyLines'
      else extractTestBody_loop rest' bodyLines' st'
  end.

Definition extractTestBody (lines : list str) (startLine : nat) : str :=
  join NL (extractTestBody_loop (drop startLine lines) [] (0%Z, false)).

Definition line_at (lines : list str) (i : nat) : str := default [] (lines !! i).

(** The body of the loop over [allPatterns] for line [i]. *)
Definition matchPattern (lines : list str) (i : nat) (tests : list TestInfo)
    (p : regex * Kind) : list TestInfo :=
  match regex_exec (fst p) (line_at lines i) 0 with
  | Some m =>
      tests ++ [{| ti_testName := group1 m; ti_lineNumber := i + 1;
                   ti_content := extractTestBody lines i; ti_kind := snd p |}]
  | None => tests
  end.

Definition extractTestsFromContent (content : str) (filePath : str) : list TestInfo :=
  let lines := split NL content in
  fold_left (fun tests i => fold_left (matchPattern lines i) allPatterns tests)
            (seq 0 (length lines)) [].

(** [extractImports]. *)
Definition quotes2 : cclass := COneOf [SQUOTE; DQUOTE].
Definition notQuotes2 : cclass := CNoneOf [SQUOTE; DQUOTE].
Definition spaces1 : regex := RPlus true (RCls CSpace).
Definition word1 : regex := RPlus true (RCls CWord).

(* /import\s+(?:(?:\{[^}]*\}|\*\s+as\s+\w+|\w+)\s+from\s+)?[Q]([^Q]+)[Q];?/g,
   where Q stands for the two quote characters (single, double) *)
Definition es6ImportPattern : regex :=
  RCat [RLit "import"; spaces1;
        ROpt (RCat [RAlt (RCat [RChar LBRACE; RStar true (RCls (CNoneOf [RBRACE])); RChar RBRACE])
                   (RAlt (RCat [RChar 42%N; spaces1; RLit "as"; spaces1; word1])
                         word1);
                    spaces1; RLit "from"; spaces1]);
        RCls quotes2; RGroup 1 (RPlus true (RCls notQuotes2)); RCls quotes2;
        ROpt (RChar 59%N)].

(* /require\s*\(\s*[Q]([^Q]+)[Q]\s*\)/g *)
Definition requirePattern : regex :=
  RCat [RLit "require"; RStar true (RCls CSpace); RChar 40%N; RStar true (RCls CSpace);
        RCls quotes2; RGroup 1 (RPlus true (RCls notQuotes2)); RCls quotes2;
        RStar true (RCls CSpace); RChar 41%N].

Definition importsOfLine (pattern : regex) (line : str) (i : nat) : list ImportInfo :=
  map (fun m => {| source := group1 m; im_lineNumber := i + 1 |}) (exec_all pattern line).

Definition extractImports (content : str) : list ImportInfo :=
  let lines := split NL content in
  fold_left (fun imports i =>
               (imports ++ importsOfLine es6ImportPattern (line_at lines i) i)
                 ++ importsOfLine requirePattern (line_at lines i) i)
            (seq 0 (length lines)) [].

(** The records pushed by [analyzeTestFileChanges]. *)
Definition directChange (t : ChangeType) (filePath : str) (d : TestInfo) : TestChange :=
  {| type := t; testName := ti_testName d; filePath := filePath;
     lineNumber := ti_lineNumber d; changeKind := ti_kind d;
     impactType := direct; impactedBy := None |}.

(** The callback of both [find] calls. *)
Definition sameTest (a b : TestInfo) : bool :=
  str_eqb (ti_testName b) (ti_testName a) && bool_decide (ti_kind b = ti_kind a).

(** [tests.find(t => ...)]: the first one, or [undefined]. *)
Definition findTest (d : TestInfo) (tests : list TestInfo) : option TestInfo :=
  List.find (sameTest d) tests.

(** The body of the loop "Find added tests". *)
Definition headStep (filePath : str) (baseTests : list TestInfo)
    (testChanges : list TestChange) (headTest : TestInfo) : list TestChange :=
  match findTest headTest baseTests with
  | None => testChanges ++ [directChange added filePath headTest]
  | Some matchingBaseTest =>
      if negb (str_eqb (ti_content matchingBaseTest) (ti_content headTest))
      then testChanges ++ [directChange modified filePath headTest]
      else testChanges
  end.

(** The body of the loop "Find removed tests". *)
Definition baseStep (filePath : str) (headTests : list TestInfo)
    (testChanges : list TestChange) (baseTest : TestInfo) : list TestChange :=
  match findTest baseTest headTests with
  | None => testChanges ++ [directChange removed filePath baseTest]
  | Some _ => testChanges
  end.

(** The two loops of [analyzeTestFileChanges] on the extracted lists. *)
Definition diffTests (filePath : str) (baseTests headTests : list TestInfo) : list TestChange :=
  fold_left (baseStep filePath headTests) baseTests
    (fold_left (headStep filePath baseTests) headTests []).

(** [content ? extractTestsFromContent(content, filePath) : []]: absent
    and empty content are both falsy. *)
Definition testsOf (content : option str) (filePath : str) : list TestInfo :=
  match content with
  | None | Some [] => []
  | Some c => extractTestsFromContent c filePath
  end.

(** The line of [git diff --name-status] parsed by the loop of
    [getChangedFiles]; [None] where the loop continues without a push. *)
Definition statusOf (c : N) : option FileChangeType :=
  if N.eqb c 65 then Some file_added          (* 'A' *)
  else if N.eqb c 68 then Some file_deleted   (* 'D' *)
  else if N.eqb c 77 then Some file_modified  (* 'M' *)
  else if N.eqb c 82 then Some file_renamed   (* 'R' *)
  else None.

(** [parts[0]?.[0]]. *)
Definition statusChar (parts : list str) : option N :=
  match parts with
  | (c :: _) :: _ => Some c
  | _ => None
  end.

Definition parseStatusLine (line : str) : option ChangedFile :=
  match trim line with
  | [] => None
  | _ =>
      let parts := split TAB line in
      match statusChar parts ≫= statusOf with
      | None => None
      | Some changeType =>
          let filePath :=
            match changeType with
            | file_renamed => parts !! 2   (* New path *)
            | _ => parts !! 1
            end in
          match filePath with
          | None | Some [] => None
          | Some p => Some {| cf_path := p; cf_changeType := changeType |}
          end
      end
  end.

(** ** The analyzer: the part that queries the repository *)

Section Analyzer.

(** The git commands run through [execSync], as functions of the
    revision and path they are given; a failing command throws. *)
Variable git_show : str -> str -> option str.          (* git show rev:path *)
Variable git_cat_file_e : str -> str -> bool.          (* git cat-file -e rev:path *)
Variable git_ls_tree : str -> option str.              (* git ls-tree -r --name-only rev *)
Variable git_diff : str -> str -> option str.          (* git diff --name-status base..head *)

(** [possiblePaths] of [resolveImportPath]. *)
Definition possiblePaths (resolvedPath : str) : list str := [
  resolvedPath;
  resolvedPath ++ u ".ts";
  resolvedPath ++ u ".js";
  resolvedPath ++ u ".tsx";
  resolvedPath ++ u ".jsx";
  path.join resolvedPath (u "index.ts");
  path.join resolvedPath (u "index.js");
  path.join resolvedPath (u "index.tsx");
  path.join resolvedPath (u "index.jsx")
].

(** The path probed by [resolveImportPath], before extensions. *)
Definition normalizedImport (importSource importingFile : str) : str :=
  let importingDir := path.dirname importingFile in
  let resolvedPath := path.normalize (path.join importingDir importSource) in
  if startsWith resolvedPath SLASH then drop 1 resolvedPath else resolvedPath.

(** The loop over [possiblePaths]: the first one for which the command
    does not throw. *)
Fixpoint firstExisting (commit : str) (paths : list str) : option str :=
  match paths with
  | [] => None
  | testPath :: paths' =>
      if git_cat_file_e commit testPath then Some testPath
      else firstExisting commit paths'
  end.

Definition resolveImportPath (importSource importingFile commit : str) : option str :=
  if negb (startsWith importSource DOT) && negb (startsWith importSource SLASH)
  then None
  else firstExisting commit (possiblePaths (normalizedImport importSource importingFile)).

Definition getAllTestFiles (commit : str) : list str :=
  match git_ls_tree commit with
  | Some output => filter (fun file => isPlaywrightTestFile file = true) (split NL (trim output))
  | None => []
  end.

Definition getChangedFiles (baseCommit headCommit : str) : option (list ChangedFile) :=
  match git_diff baseCommit headCommit with
  | Some output =>
      Some (fold_left (fun files line =>
                         match parseStatusLine line with
                         | Some f => files ++ [f]
                         | None => files
                         end)
                      (split NL (trim output)) [])
  | None => None   (* throws "Failed to get changed files" *)
  end.

Definition analyzeTestFileChanges (baseCommit headCommit filePath : str) : list TestChange :=
  let baseContent := git_show baseCommit filePath in
  let headContent := git_show headCommit filePath in
  let baseTests := testsOf baseContent filePath in
  let headTests := testsOf headContent filePath in
  diffTests filePath baseTests headTests.

(** The record pushed by [analyzeIndirectImpact]. *)
Definition indirectChange (testFile resolvedPath : str) (d : TestInfo) : TestChange :=
  {| type := modified; testName := ti_testName d; filePath := testFile;
     lineNumber := ti_lineNumber d; changeKind := ti_kind d;
     impactType := indirect; impactedBy := Some resolvedPath |}.

(** The loop over the imports of one test file, left at the first
    import that resolves to a changed path. *)
Fixpoint scanImports (headCommit testFile testContent : str)
    (changedNonTestPaths : gset str) (imports : list ImportInfo) : list TestChange :=
  match imports with
  | [] => []
  | importInfo :: imports' =>
      match resolveImportPath (source importInfo) testFile headCommit with
      | Some ((_ :: _) as resolvedPath) =>
          if bool_decide (resolvedPath ∈ changedNonTestPaths)
          then map (indirectChange testFile resolvedPath)
                   (extractTestsFromContent testContent testFile)
          else scanImports headCommit testFile testContent changedNonTestPaths imports'
      | _ => scanImports headCommit testFile testContent changedNonTestPaths imports'
      end
  end.

(** The body of the loop over [unchangedTestFiles]: what one file adds
    to [indirectImpacts]; nothing when reading it throws. *)
Definition indirectOfFile (headCommit : str) (changedNonTestPaths : gset str)
    (testFile : str) : list TestChange :=
  match git_show headCommit testFile with
  | Some testContent =>
      scanImports headCommit testFile testContent changedNonTestPaths
                  (extractImports testContent)
  | None => []
  end.

Definition unchangedTestFiles (headCommit : str) (changedTestFiles : list ChangedFile) : list str :=
  filter (fun testFile =>
            existsb (fun cf => str_eqb (cf_path cf) testFile) changedTestFiles = false)
         (getAllTestFiles headCommit).

Definition analyzeIndirectImpact (baseCommit headCommit : str)
    (changedNonTestFiles changedTestFiles : list ChangedFile) : list TestChange :=
  let changedNonTestPaths : gset str := list_to_set (map cf_path changedNonTestFiles) in
  fold_left (fun indirectImpacts testFile =>
               indirectImpacts ++ indirectOfFile headCommit changedNonTestPaths testFile)
            (unchangedTestFiles headCommit changedTestFiles) [].

(** The state of the first loop of [analyze]. *)
Record Partition := {
  p_fileChanges : list FileChange;
  p_directlyImpactedTests : list TestChange;
  p_changedTestFiles : list ChangedFile;
  p_changedNonTestFiles : list ChangedFile;
}.

Definition classifyStep (baseCommit headCommit : str) (st : Partition) (file : ChangedFile) : Partition :=
  if isPlaywrightTestFile (cf_path file) then
    let testChanges := analyzeTestFileChanges baseCommit headCommit (cf_path file) in
    {| p_fileChanges :=
         p_fileChanges st ++ [{| fc_filePath := cf_path file;
                                 fc_changeType := cf_changeType file;
                                 isTestFile := true;
                                 testChanges := Some testChanges |}];
       p_directlyImpactedTests := p_directlyImpactedTests st ++ testChanges;
       p_changedTestFiles := p_changedTestFiles st ++ [file];
       p_changedNonTestFiles := p_changedNonTestFiles st |}
  else
    {| p_fileChanges :=
         p_fileChanges st ++ [{| fc_filePath := cf_path file;
                                 fc_changeType := cf_changeType file;
                                 isTestFile := false;
                                 testChanges := None |}];
       p_directlyImpactedTests := p_directlyImpactedTests st;
       p_changedTestFiles := p_changedTestFiles st;
       p_changedNonTestFiles := p_changedNonTestFiles st ++ [file] |}.

Definition classify (baseCommit headCommit : str) (files : list ChangedFile) : Partition :=
  fold_left (classifyStep baseCommit headCommit) files
    {| p_fileChanges := []; p_directlyImpactedTests := [];
       p_changedTestFiles := []; p_changedNonTestFiles := [] |}.

Definition countType (t : ChangeType) (l : list TestChange) : nat :=
  length (filter (fun r => type r = t) l).

(** [analyze] from the list of changed files on. *)
Definition analyzeFiles (baseCommit headCommit : str) (files : list ChangedFile) : ImpactAnalysisResult :=
  let st := classify baseCommit headCommit files in
  let fileChanges := p_fileChanges st in
  let directlyImpactedTests := p_directlyImpactedTests st in
  let indirectlyImpactedTests :=
    match p_changedNonTestFiles st with
    | [] => []
    | _ => analyzeIndirectImpact baseCommit headCommit
             (p_changedNonTestFiles st) (p_changedTestFiles st)
    end in
  {| baseCommit := baseCommit;
     headCommit := headCommit;
     changedFiles := fileChanges;
     directlyImpactedTests := directlyImpactedTests;
     indirectlyImpactedTests := indirectlyImpactedTests;
     summary :=
       {| totalFilesChanged := length fileChanges;
          testFilesChanged := length (filter (fun f => isTestFile f = true) fileChanges);
          testsAdded := countType added directlyImpactedTests;
          testsRemoved := countType removed directlyImpactedTests;
          testsModified := countType modified directlyImpactedTests;
          testsIndirectlyImpacted := length indirectlyImpactedTests |} |}.

(** [analyze]: [None] when [getChangedFiles] throws. *)
Definition analyze (baseCommit headCommit : str) : option ImpactAnalysisResult :=
  match getChangedFiles baseCommit headCommit with
  | Some files => Some (analyzeFiles baseCommit headCommit files)
  | None => None
  end.

(** The entry of [changedFiles] for one changed file. *)
Definition fileChangeOf (baseCommit headCommit : str) (file : ChangedFile) : FileChange :=
  {| fc_filePath := cf_path file;
     fc_changeType := cf_changeType file;
     isTestFile := isPlaywrightTestFile (cf_path file);
     testChanges :=
       if isPlaywrightTestFile (cf_path file)
       then Some (analyzeTestFileChanges baseCommit headCommit (cf_path file))
       else None |}.

(** The direct records of one changed file. *)
Definition directOf (baseCommit headCommit : str) (file : ChangedFile) : list TestChange :=
  if isPlaywrightTestFile (cf_path file)
  then analyzeTestFileChanges baseCommit headCommit (cf_path file)
  else [].

Definition isTest (file : ChangedFile) : Prop := isPlaywrightTestFile (cf_path file) = true.

End Analyzer.

(** ** An in-memory repository

    A test double of the collaborator: each revision lists its files with
    their content ([None] for a file that is listed but cannot be read),
    and the output of [git diff --name-status] is given for the pairs of
    revisions that are compared. *)

Module Fake.

Definition tree := list (str * option str).

Record repo := {
  revisions : list (str * tree);
  diffs : list (str * str * str);
}.

Fixpoint assoc {A} (k : str) (l : list (str * A)) : option A :=
  match l with
  | [] => None
  | (k', v) :: l' => if str_eqb k k' then Some v else assoc k l'
  end.

Definition show (r : repo) (commit file : str) : option str :=
  match assoc commit (revisions r) with
  | Some t => default None (assoc file t)
  | None => None
  end.

(** [git cat-file -e rev:path] succeeds for every object of the tree of
    the revision, readable or not: a listed file (a blob), a directory (a
    tree object: some listed file lies under it, with or without a
    trailing slash on the path), and the root tree, named by the empty
    path and by [./]. *)
Definition isPrefix (p s : str) : bool := str_eqb (take (length p) s) p.

Definition inDirectory (dir file : str) : bool :=
  isPrefix (if startsWith (rev dir) SLASH then dir else dir ++ [SLASH]) file.

Definition cat_file_e (r : repo) (commit file : str) : bool :=
  match assoc commit (revisions r) with
  | Some t =>
      str_eqb file [] || str_eqb file (u "./")
      || existsb (fun f => str_eqb (fst f) file || inDirectory file (fst f)) t
  | None => false
  end.

Definition ls_tree (r : repo) (commit : str) : option str :=
  match assoc commit (revisions r) with
  | Some t => Some (flat_map (fun f => fst f ++ [NL]) t)
  | None => None
  end.

Definition diff (r : repo) (base head : str) : option str :=
  assoc head (flat_map (fun d => if str_eqb (fst (fst d)) base
                                 then [(snd (fst d), snd d)] else [])
                       (diffs r)).

Definition run (r : repo) (base head : str) : option ImpactAnalysisResult :=
  analyze (show r) (cat_file_e r) (ls_tree r) (diff r) base head.

End Fake.

(** ** Example inputs *)

(** Two suites that each hold a test named [works], with different
    bodies. *)
Definition twoWorks : str := u "test.describe('A', () => {
  test('works', async () => { a(); });
});
test.describe('B', () => {
  test('works', async () => { b(); });
});".


(** A test file that imports two helper modules. *)
Definition aSpec : str := u "import { test } from '@playwright/test';
import { h } from '../utils/helpers';
import { f } from './fixtures';
test('one', async () => {
  h(f);
});
test('two', async () => { h(); });".

Definition keptSpec : str := u "test('kept', async () => { k(); });".

(** A repository in which, from [base] to [head], both helper modules
    and [package.json] change, a test file is renamed without a change of
    content, and one test file of [head] cannot be read; and in which,
    from [d0] to [d1], only [package.json] changes. *)
Definition exampleRepo : Fake.repo := {|
  Fake.revisions := [
    (u "base", [(u "package.json", Some (u "{}"));
                (u "tests/a.spec.ts", Some aSpec);
                (u "tests/fixtures/index.ts", Some (u "export const f = 1;"));
                (u "tests/old.spec.ts", Some keptSpec);
                (u "utils/helpers.ts", Some (u "export const h = 1;"))]);
    (u "head", [(u "package.json", Some (u "{ }"));
                (u "tests/a.spec.ts", Some aSpec);
                (u "tests/fixtures/index.ts", Some (u "export const f = 2;"));
                (u "tests/gone.spec.ts", None);
                (u "tests/new.spec.ts", Some keptSpec);
                (u "utils/helpers.ts", Some (u "export const h = 2;"))]);
    (u "d0", [(u "package.json", Some (u "{}"));
              (u "tests/a.spec.ts", Some aSpec);
              (u "utils/helpers.ts", Some (u "export const h = 1;"))]);
    (u "d1", [(u "package.json", Some (u "{ }"));
              (u "tests/a.spec.ts", Some aSpec);
              (u "utils/helpers.ts", Some (u "export const h = 1;"))])
  ];
  Fake.diffs := [
    (u "base", u "head",
     u "M	package.json
M	tests/fixtures/index.ts
R100	tests/old.spec.ts	tests/new.spec.ts
M	utils/helpers.ts
");
    (u "d0", u "d1", u "M	package.json
")
  ]
|}.

(** ** Auxiliary definitions of the statements *)

(** What the loop "Find added tests" pushes for one head declaration. *)
Definition headRecords (filePath : str) (baseTests : list TestInfo) (headTest : TestInfo) : list TestChange :=
  headStep filePath baseTests [] headTest.

(** What the loop "Find removed tests" pushes for one base declaration. *)
Definition baseRecords (filePath : str) (headTests : list TestInfo) (baseTest : TestInfo) : list TestChange :=
  baseStep filePath headTests [] baseTest.

(** The identity of a declaration for the differ. *)
Definition key (d : TestInfo) : str * Kind := (ti_testName d, ti_kind d).

(** [b] is the first declaration of [l] with the key of [d]. *)
Definition firstSameKey (l : list TestInfo) (d b : TestInfo) : Prop :=
  exists pre post, l = pre ++ b :: post /\ key b = key d /\
                   forall x, x ∈ pre -> key x <> key d.

(** The entry pushed for a match [m] of pattern [p] on line [i]. *)
Definition declaration (lines : list str) (i : nat) (p : regex * Kind) (m : rmatch_result) : TestInfo :=
  {| ti_testName := group1 m; ti_lineNumber := i + 1;
     ti_content := extractTestBody lines i; ti_kind := snd p |}.

Definition declsOfPattern (lines : list str) (i : nat) (p : regex * Kind) : list TestInfo :=
  match regex_exec (fst p) (line_at lines i) 0 with
  | Some m => [declaration lines i p m]
  | None => []
  end.

Definition declsOfLine (lines : list str) (i : nat) : list TestInfo :=
  flat_map (declsOfPattern lines i) allPatterns.





(** The test of [extractTestBody] after each line: an open token was seen
    and the depth is zero. *)
Definition isClosed (st : Z * bool) : bool := snd st && Z.eqb (fst st) 0.

(** The state of the brace scan at the end of a text, from depth zero. *)
Definition scanState (body : str) : Z * bool := countBraces body (0%Z, false).

(** The same scan, line by line. *)
Definition scanLines (ls : list str) (st : Z * bool) : Z * bool :=
  fold_left (fun st line => countBraces line st) ls st.

(** The endings that make a path a test file for the code. *)
Definition testFileSuffixes : list str := map u [
  ".spec.ts"; ".spec.js"; ".spec.tsx"; ".spec.jsx";
  ".test.ts"; ".test.js"; ".test.tsx"; ".test.jsx";
  "playwright.ts"; "playwright.js"; "playwright.config.ts"; "playwright.config.js"
]%string.

(** [s.endsWith(suf)]. *)
Definition endsWith (s suf : str) : bool :=
  str_eqb (drop (length s - length suf) s) suf.

(** The classification as the specification words it, to compare with
    [isPlaywrightTestFile]: a test suffix before a source extension at the
    end of the path, or a path equal to a configuration-file name. *)
Definition specTestFile (p : str) : bool :=
  existsb (fun ext => endsWith p (u ".spec." ++ ext) || endsWith p (u ".test." ++ ext))
          (map u ["ts"; "js"; "tsx"; "jsx"]%string)
  || existsb (str_eqb p)
       (map u ["playwright.config.ts"; "playwright.config.js";
               "playwright.ts"; "playwright.js"]%string).

(** ** The command-line front end: [src/dist/cli.js] *)

(** [s.replace(pattern, replacement)] for a global pattern that matches
    no empty string: the text before each match is kept, the match is
    replaced, and the search goes on after it. *)
Fixpoint replace_loop (fuel : nat) (r : regex) (replacement : str -> str) (rest : str) : str :=
  match fuel with
  | 0 => rest
  | S fuel' =>
      match search r rest 0 with
      | None => rest
      | Some m =>
          take (m_index m) rest
            ++ replacement (take (m_end m - m_index m) (drop (m_index m) rest))
            ++ replace_loop fuel' r replacement (drop (m_end m) rest)
      end
  end.

Definition replaceAll (r : regex) (replacement : str -> str) (s : str) : str :=
  replace_loop (S (length s)) r replacement s.

Definition BACKSLASH : N := 92%N.
Definition PIPE : N := 124%N.
Definition SPACE : N := 32%N.

(** The characters of the class in [escapeRegex]:
    . * + ? ^ $ { } ( ) | [ ] and the backslash. *)
Definition regexSpecials : list N :=
  [46; 42; 43; 63; 94; 36; 123; 125; 40; 41; 124; 91; 93; 92]%N.

(** [escapeRegex]: each special character gets a backslash before it
    (the replacement is a backslash followed by the match). *)
Definition escapeRegex (s : str) : str :=
  replaceAll (RCls (COneOf regexSpecials)) (fun matched => BACKSLASH :: matched) s.

(** The entries of [impactedTests] in [generateRunnableOutput];
    [impactedBy] is set for the indirect ones only. *)
Record RunnableTest := {
  rt_filePath : str;
  rt_testName : str;
  rt_impactType : ChangeType;
  rt_changeKind : Kind;
  rt_lineNumber : nat;
  rt_source : ImpactType;
  rt_impactedBy : option str;
}.

#[global] Instance RunnableTest_eq_dec : EqDecision RunnableTest.
Proof. solve_decision. Defined.

Record PlaywrightCommands := {
  runAll : str;
  runByFile : str;
  runByGrep : str;
  runAddedOnly : str;
  runModifiedOnly : str;
}.

Record RunnableSummary := {
  totalImpactedTests : nat;
  directlyImpacted : nat;
  indirectlyImpacted : nat;
  rs_testsAdded : nat;
  rs_testsModified : nat;
  rs_testsRemoved : nat;
}.

Record RunnableOutput := {
  ro_summary : RunnableSummary;
  impactedTests : list RunnableTest;
  playwrightCommands : PlaywrightCommands;
  fileList : list str;
  grepPattern : str;
}.

Definition runnableOfDirect (t : TestChange) : RunnableTest :=
  {| rt_filePath := filePath t; rt_testName := testName t; rt_impactType := type t;
     rt_changeKind := changeKind t; rt_lineNumber := lineNumber t;
     rt_source := direct; rt_impactedBy := None |}.

Definition runnableOfIndirect (t : TestChange) : RunnableTest :=
  {| rt_filePath := filePath t; rt_testName := testName t; rt_impactType := type t;
     rt_changeKind := changeKind t; rt_lineNumber := lineNumber t;
     rt_source := indirect; rt_impactedBy := impactedBy t |}.

(** [[...new Set(l)]]: the elements in the order of their first
    occurrence. *)
Definition setInsert (acc : list str) (x : str) : list str :=
  if bool_decide (x ∈ acc) then acc else acc ++ [x].

Definition uniqueInOrder (l : list str) : list str := fold_left setInsert l [].

(** [l.filter(t => t.impactType === ty)]. *)
Definition withImpactType (ty : ChangeType) (l : list RunnableTest) : list RunnableTest :=
  filter (fun t => rt_impactType t = ty) l.

(** The command that selects tests by name, for [--grep]. *)
Definition grepCommand (pattern : str) : str :=
  u "npx playwright test --grep " ++ [DQUOTE] ++ pattern ++ [DQUOTE].

(** [tests.map(t => escapeRegex(t.testName)).join('|')]. *)
Definition namesPattern (l : list RunnableTest) : str :=
  join PIPE (map (fun t => escapeRegex (rt_testName t)) l).

Definition generateRunnableOutput (result : ImpactAnalysisResult) : RunnableOutput :=
  let impactedTests :=
    fold_left (fun acc test => acc ++ [runnableOfIndirect test])
              (indirectlyImpactedTests result)
              (fold_left (fun acc test => acc ++ [runnableOfDirect test])
                         (directlyImpactedTests result) []) in
  let runnableTests := filter (fun t => rt_impactType t <> removed) impactedTests in
  let fileList := uniqueInOrder (map rt_filePath runnableTests) in
  let testNames :=
    map (fun t => escapeRegex (rt_testName t))
        (filter (fun t => rt_changeKind t = test) runnableTests) in
  let grepPattern := match testNames with [] => [] | _ => join PIPE testNames end in
  let fileArgs := join SPACE fileList in
  let playwrightCommands :=
    {| runAll := match fileList with
                 | [] => u "# No runnable tests found"
                 | _ => u "npx playwright test " ++ fileArgs
                 end;
       runByFile := match fileList with
                    | [] => u "# No runnable tests found"
                    | _ => u "npx playwright test " ++ fileArgs
                    end;
       runByGrep := match grepPattern with
                    | [] => u "# No test grep pattern available"
                    | _ => grepCommand grepPattern
                    end;
       runAddedOnly := match withImpactType added runnableTests with
                       | [] => u "# No added tests"
                       | l => grepCommand (namesPattern l)
                       end;
       runModifiedOnly := match withImpactType modified runnableTests with
                          | [] => u "# No modified tests"
                          | l => grepCommand (namesPattern l)
                          end |} in
  {| ro_summary :=
       {| totalImpactedTests := length impactedTests;
          directlyImpacted := length (directlyImpactedTests result);
          indirectlyImpacted := length (indirectlyImpactedTests result);
          rs_testsAdded := length (withImpactType added impactedTests);
          rs_testsModified := length (withImpactType modified impactedTests);
          rs_testsRemoved := length (withImpactType removed impactedTests) |};
     impactedTests := impactedTests;
     playwrightCommands := playwrightCommands;
     fileList := fileList;
     grepPattern := grepPattern |}.

(** The names that every object inherits from [Object.prototype]: read
    on the empty object of [groupTestsByFile] they give a function or an
    object, which is truthy and has no [push]. *)
Definition objectPrototypeKeys : list str := map u [
  "constructor"; "hasOwnProperty"; "isPrototypeOf"; "propertyIsEnumerable";
  "toLocaleString"; "toString"; "valueOf"; "__proto__";
  "__defineGetter__"; "__defineSetter__"; "__lookupGetter__"; "__lookupSetter__"
]%string.

(** The reducer of [groupTestsByFile]; [None] is the TypeError of calling
    [push] on an inherited value. *)
Definition groupStep (acc : option (gmap str (list TestChange))) (t : TestChange)
    : option (gmap str (list TestChange)) :=
  match acc with
  | None => None
  | Some groups =>
      match groups !! filePath t with
      | Some tests => Some (<[filePath t := tests ++ [t]]> groups)
      | None =>
          if bool_decide (filePath t ∈ objectPrototypeKeys) then None
          else Some (<[filePath t := [t]]> groups)
      end
  end.

Definition groupTestsByFile (tests : list TestChange) : option (gmap str (list TestChange)) :=
  fold_left groupStep tests (Some ∅).

(** ** Further definitions of the statements *)

(** The inverse of the escaping: a backslash is dropped and the
    character after it kept as it is. *)
Fixpoint unescapeRegex (s : str) : str :=
  match s with
  | [] => []
  | c :: s' =>
      if N.eqb c BACKSLASH then
        match s' with
        | c' :: s'' => c' :: unescapeRegex s''
        | [] => []
        end
      else c :: unescapeRegex s'
  end.

(** A line of [git diff --name-status] for a changed file: the status
    letter, for a rename its score and the old path, and the path. *)
Record DiffEntry := {
  de_file : ChangedFile;
  de_score : str;
  de_old : str;
}.

Definition statusLetter (t : FileChangeType) : N :=
  match t with
  | file_added => 65%N
  | file_deleted => 68%N
  | file_modified => 77%N
  | file_renamed => 82%N
  end.

Definition nameStatusLine (e : DiffEntry) : str :=
  match cf_changeType (de_file e) with
  | file_renamed =>
      82%N :: de_score e ++ TAB :: de_old e ++ TAB :: cf_path (de_file e)
  | t => statusLetter t :: TAB :: cf_path (de_file e)
  end.

(** The listing: one line per entry, each ended by a newline. *)
Definition nameStatusOutput (entries : list DiffEntry) : str :=
  flat_map (fun e => nameStatusLine e ++ [NL]) entries.

(** A path that the listing carries as it is. *)
Definition plainPath (p : str) : Prop :=
  p <> [] /\ (TAB ∉ p) /\ (NL ∉ p) /\ is_space (List.last p 0%N) = false.

Definition plainEntry (e : DiffEntry) : Prop :=
  plainPath (cf_path (de_file e))
  /\ (TAB ∉ de_score e) /\ (NL ∉ de_score e) /\ (TAB ∉ de_old e) /\ (NL ∉ de_old e).

(** [b] closes at its last line and not before, from the state [st]. *)
Definition closesAtEnd (b : list str) (st : Z * bool) : Prop :=
  isClosed (scanLines b st) = true
  /\ forall m, 1 <= m < length b -> isClosed (scanLines (take m b) st) = false.

(** Two declarations that differ at most in their line. *)
Definition sameDeclaration (a b : TestInfo) : Prop :=
  key a = key b /\ ti_content a = ti_content b.

(** A record with another change type. *)
Definition withType (t : ChangeType) (r : TestChange) : TestChange :=
  {| type := t; testName := testName r; filePath := filePath r;
     lineNumber := lineNumber r; changeKind := changeKind r;
     impactType := impactType r; impactedBy := impactedBy r |}.

(** A pattern without capturing group. *)
Fixpoint groupFree (r : regex) : bool :=
  match r with
  | REps | RCls _ | REnd => true
  | RSeq r1 r2 | RAlt r1 r2 => groupFree r1 && groupFree r2
  | RStar _ r1 => groupFree r1
  | RGroup _ _ => false
  end.

(** The listing of the example repository from [base] to [head]. *)
Definition exampleEntries : list DiffEntry := [
  {| de_file := {| cf_path := u "package.json"; cf_changeType := file_modified |};
     de_score := []; de_old := [] |};
  {| de_file := {| cf_path := u "tests/fixtures/index.ts"; cf_changeType := file_modified |};
     de_score := []; de_old := [] |};
  {| de_file := {| cf_path := u "tests/new.spec.ts"; cf_changeType := file_renamed |};
     de_score := u "100"; de_old := u "tests/old.spec.ts" |};
  {| de_file := {| cf_path := u "utils/helpers.ts"; cf_changeType := file_modified |};
     de_score := []; de_old := [] |}
].

(** The field of a name-status line that holds the path. *)
Definition pathField (t : FileChangeType) : nat :=
  match t with file_renamed => 2 | _ => 1 end.

(** What [escapeRegex] makes of one character. *)
Definition escapeChar (c : N) : str :=
  if bool_decide (c ∈ regexSpecials) then [BACKSLASH; c] else [c].

(** The records of the two lists of a result, the direct ones first. *)
Definition allRecords (result : ImpactAnalysisResult) : list TestChange :=
  directlyImpactedTests result ++ indirectlyImpactedTests result.

(** The records of a list that are about one file. *)
Definition recordsOf (file : str) (tests : list TestChange) : list TestChange :=
  filter (fun t => filePath t = file) tests.
(** ** Loops as list functions *)

Lemma fold_left_push {A B} (f : B -> list A) (l : list B) (acc : list A) :
  fold_left (fun acc x => acc ++ f x) l acc = acc ++ flat_map f l.
Proof.
  revert acc. induction l as [|x l IH]; intros acc; simpl.
  - by rewrite app_nil_r.
  - by rewrite IH, app_assoc.
Qed.

Lemma fold_left_ext {A B} (f g : A -> B -> A) (l : list B) (a : A) :
  (forall a b, f a b = g a b) -> fold_left f l a = fold_left g l a.
Proof.
  intros Hfg. revert a. induction l as [|x l IH]; intros a; simpl; [done|].
  by rewrite Hfg, IH.
Qed.

Lemma elem_of_flat_map {A B} (f : A -> list B) (l : list A) (y : B) :
  y ∈ flat_map f l <-> exists x, x ∈ l /\ y ∈ f x.
Proof.
  setoid_rewrite list_elem_of_In. apply in_flat_map.
Qed.

Lemma flat_map_singleton_map {A B} (f : A -> B) (l : list A) :
  flat_map (fun x => [f x]) l = map f l.
Proof. induction l as [|x l IH]; simpl; [done|by rewrite IH]. Qed.

Lemma flat_map_ext_elem {A B} (f g : A -> list B) (l : list A) :
  (forall x, x ∈ l -> f x = g x) -> flat_map f l = flat_map g l.
Proof.
  induction l as [|x l IH]; intros H; simpl; [done|].
  rewrite H by (apply elem_of_cons; by left).
  rewrite IH; [done|]. intros y Hy. apply H, elem_of_cons. by right.
Qed.

Lemma flat_map_filter {A B} (f : A -> list B) (P : A -> Prop)
    `{forall x, Decision (P x)} (l : list A) :
  (forall x, x ∈ l -> ~ P x -> f x = []) ->
  flat_map f l = flat_map f (filter P l).
Proof.
  induction l as [|x l IH]; intros Hf; [done|].
  rewrite filter_cons. simpl.
  rewrite IH by (intros y Hy; apply Hf, elem_of_cons; by right).
  destruct (decide (P x)) as [Hx|Hx]; [done|].
  rewrite Hf; [done| |done]. apply elem_of_cons. by left.
Qed.

Lemma filter_ext_elem {A} (P Q : A -> Prop)
    `{forall x, Decision (P x)} `{forall x, Decision (Q x)} (l : list A) :
  (forall x, x ∈ l -> P x <-> Q x) -> filter P l = filter Q l.
Proof.
  induction l as [|x l IH]; intros HPQ; [done|].
  rewrite !filter_cons.
  rewrite IH by (intros y Hy; apply HPQ, elem_of_cons; by right).
  assert (P x <-> Q x) as Hx by (apply HPQ, elem_of_cons; by left).
  destruct (decide (P x)), (decide (Q x)); tauto || done.
Qed.

Lemma filter_none {A} (P : A -> Prop) `{forall x, Decision (P x)} (l : list A) :
  (forall x, x ∈ l -> ~ P x) -> filter P l = [].
Proof.
  induction l as [|x l IH]; intros HP; [done|].
  rewrite filter_cons.
  rewrite IH by (intros y Hy; apply HP, elem_of_cons; by right).
  destruct (decide (P x)) as [Hx|]; [|done].
  destruct (HP x); [apply elem_of_cons; by left|done].
Qed.

Lemma filter_all {A} (P : A -> Prop) `{forall x, Decision (P x)} (l : list A) :
  (forall x, x ∈ l -> P x) -> filter P l = l.
Proof.
  induction l as [|x l IH]; intros HP; [done|].
  rewrite filter_cons.
  rewrite IH by (intros y Hy; apply HP, elem_of_cons; by right).
  destruct (decide (P x)) as [|Hx]; [done|].
  destruct Hx. apply HP, elem_of_cons. by left.
Qed.

(** *** The differ *)

Lemma headStep_push filePath baseTests acc h :
  headStep filePath baseTests acc h = acc ++ headRecords filePath baseTests h.
Proof.
  unfold headRecords, headStep. destruct (findTest h baseTests) as [b|]; [|done].
  destruct (negb _); [done|]. by rewrite app_nil_r.
Qed.

Lemma baseStep_push filePath headTests acc b :
  baseStep filePath headTests acc b = acc ++ baseRecords filePath headTests b.
Proof.
  unfold baseRecords, baseStep. destruct (findTest b headTests); [|done].
  by rewrite app_nil_r.
Qed.

Lemma diffTests_flat_map filePath baseTests headTests :
  diffTests filePath baseTests headTests
  = flat_map (headRecords filePath baseTests) headTests
    ++ flat_map (baseRecords filePath headTests) baseTests.
Proof.
  unfold diffTests.
  rewrite (fold_left_ext (baseStep filePath headTests)
             (fun acc b => acc ++ baseRecords filePath headTests b))
    by apply baseStep_push.
  rewrite (fold_left_ext (headStep filePath baseTests)
             (fun acc h => acc ++ headRecords filePath baseTests h))
    by apply headStep_push.
  by rewrite !fold_left_push.
Qed.

Lemma sameTest_key a b : sameTest a b = true <-> key b = key a.
Proof.
  unfold sameTest, key, str_eqb.
  rewrite andb_true_iff, !bool_decide_eq_true. split.
  - by intros [-> ->].
  - intros [= -> ->]. done.
Qed.

Lemma findTest_Some d l b : findTest d l = Some b <-> firstSameKey l d b.
Proof.
  unfold findTest, firstSameKey. induction l as [|x l IH]; simpl.
  - split; [done|]. intros (pre & post & H & _). by destruct pre.
  - destruct (sameTest d x) eqn:E.
    + apply sameTest_key in E. split.
      * intros [= <-]. exists [], l. (split; [done|split; [done|]]). by intros y Hy%elem_of_nil.
      * intros ([|p pre] & post & H & Hk & Hpre); simplify_eq/=; [done|].
        exfalso. apply (Hpre p); [apply elem_of_cons; by left | unfold key; congruence].
    + assert (key x <> key d) as Hne.
      { intros Hk. apply sameTest_key in Hk. congruence. }
      rewrite IH. split.
      * intros (pre & post & -> & Hk & Hpre). exists (x :: pre), post.
        (split; [done|split; [done|]]). intros y [->|Hy]%elem_of_cons; auto.
      * intros ([|p pre] & post & H & Hk & Hpre); simplify_eq/=.
        exists pre, post. (split; [done|split; [unfold key; congruence|]]).
        intros y Hy. apply Hpre, elem_of_cons. by right.
Qed.

Lemma findTest_None d l : findTest d l = None <-> forall x, x ∈ l -> key x <> key d.
Proof.
  unfold findTest. induction l as [|x l IH]; simpl.
  - split; [|done]. by intros _ y Hy%elem_of_nil.
  - destruct (sameTest d x) eqn:E.
    + apply sameTest_key in E. split; [done|]. intros H. destruct (H x); [apply elem_of_cons; by left|done].
    + rewrite IH. split.
      * intros H y [->|Hy]%elem_of_cons; [|by apply H].
        intros Hk. apply sameTest_key in Hk. congruence.
      * intros H y Hy. apply H, elem_of_cons. by right.
Qed.

Lemma firstSameKey_unique_keys l d b :
  NoDup (map key l) -> b ∈ l -> key b = key d -> firstSameKey l d b.
Proof.
  intros Hnd Hb Hk. apply list_elem_of_split in Hb as (pre & post & ->).
  exists pre, post. (split; [done|split; [done|]]).
  intros x Hx Hxk. rewrite map_app in Hnd. simpl in Hnd.
  apply NoDup_app in Hnd as (_ & Hdis & _).
  apply (Hdis (key x)).
  - apply list_elem_of_fmap. by exists x.
  - rewrite Hxk, <- Hk. apply elem_of_cons. by left.
Qed.

(** *** The extractor *)

Lemma matchPattern_push lines i acc p :
  matchPattern lines i acc p = acc ++ declsOfPattern lines i p.
Proof.
  unfold matchPattern, declsOfPattern, declaration.
  destruct (regex_exec _ _ _); [done|]. by rewrite app_nil_r.
Qed.

Lemma extractTestsFromContent_flat_map content filePath :
  extractTestsFromContent content filePath
  = flat_map (declsOfLine (split NL content)) (seq 0 (length (split NL content))).
Proof.
  unfold extractTestsFromContent. cbv zeta.
  rewrite <- (app_nil_l (flat_map _ _)), <- fold_left_push.
  apply fold_left_ext. intros acc i. unfold declsOfLine.
  rewrite <- fold_left_push. apply fold_left_ext, matchPattern_push.
Qed.

Lemma elem_of_extractTestsFromContent content filePath d :
  d ∈ extractTestsFromContent content filePath <->
  exists i p m, i < length (split NL content) /\ p ∈ allPatterns /\
    regex_exec (fst p) (line_at (split NL content) i) 0 = Some m /\
    d = declaration (split NL content) i p m.
Proof.
  rewrite extractTestsFromContent_flat_map, elem_of_flat_map. split.
  - intros (i & Hi & Hd). apply elem_of_seq in Hi as [_ Hi].
    apply elem_of_flat_map in Hd as (p & Hp & Hd).
    unfold declsOfPattern in Hd. destruct (regex_exec _ _ _) as [m|] eqn:E.
    + apply list_elem_of_singleton in Hd. by exists i, p, m.
    + by apply elem_of_nil in Hd.
  - intros (i & p & m & Hi & Hp & E & ->). exists i. split.
    + apply elem_of_seq. lia.
    + apply elem_of_flat_map. exists p. split; [done|].
      unfold declsOfPattern. rewrite E. by apply list_elem_of_singleton.
Qed.


Lemma flat_map_cons_split {A B} (f : A -> list B) (x : A) (y : B) :
  y ∈ f x -> exists a b, f x = a ++ y :: b.
Proof. apply list_elem_of_split. Qed.

Lemma headRecords_added filePath baseTests h :
  (forall b, b ∈ baseTests -> key b <> key h) ->
  headRecords filePath baseTests h = [directChange added filePath h].
Proof.
  intros Hno%findTest_None. unfold headRecords, headStep. by rewrite Hno.
Qed.

Lemma headRecords_first filePath baseTests h b :
  firstSameKey baseTests h b ->
  headRecords filePath baseTests h
  = if bool_decide (ti_content b = ti_content h) then []
    else [directChange modified filePath h].
Proof.
  intros Hb%findTest_Some. unfold headRecords, headStep, str_eqb. rewrite Hb.
  by destruct (bool_decide _).
Qed.

Lemma baseRecords_removed filePath headTests b :
  (forall h, h ∈ headTests -> key h <> key b) ->
  baseRecords filePath headTests b = [directChange removed filePath b].
Proof.
  intros Hno%findTest_None. unfold baseRecords, baseStep. by rewrite Hno.
Qed.

Lemma baseRecords_kept filePath headTests b h :
  h ∈ headTests -> key h = key b -> baseRecords filePath headTests b = [].
Proof.
  intros Hh Hk. unfold baseRecords, baseStep.
  destruct (findTest b headTests) eqn:E; [done|].
  exfalso. eapply findTest_None in E; eauto.
Qed.

Lemma headRecords_direct file baseTests h r :
  r ∈ headRecords file baseTests h ->
  impactType r = direct /\ impactedBy r = None /\ filePath r = file /\
  testName r = ti_testName h /\ changeKind r = ti_kind h /\ lineNumber r = ti_lineNumber h /\
  type r <> removed.
Proof.
  unfold headRecords, headStep. destruct (findTest h baseTests) as [b|].
  - destruct (negb _); simpl.
    + intros ->%list_elem_of_singleton. by repeat split.
    + by intros ?%elem_of_nil.
  - simpl. intros ->%list_elem_of_singleton. by repeat split.
Qed.

Lemma baseRecords_direct file headTests b r :
  r ∈ baseRecords file headTests b ->
  impactType r = direct /\ impactedBy r = None /\ filePath r = file /\
  testName r = ti_testName b /\ changeKind r = ti_kind b /\ lineNumber r = ti_lineNumber b /\
  type r = removed.
Proof.
  unfold baseRecords, baseStep. destruct (findTest b headTests); simpl.
  - by intros ?%elem_of_nil.
  - intros ->%list_elem_of_singleton. by repeat split.
Qed.

(** C1 (amended): the differ emits, in head order, for each head
    declaration: Added if no base declaration has its (name, kind);
    otherwise it compares with the FIRST base declaration of that key:
    Modified if the bodies differ, nothing if they are equal.  Then, in
    base order, Removed for each base declaration whose key no head
    declaration has.  Every record is Direct.  When the keys of the base
    list are pairwise distinct, a declaration present in both lists with
    equal name, kind and body gets no record, whatever its line. *)
Theorem diffTests_first_match (file : str) (baseTests headTests : list TestInfo) :
  diffTests file baseTests headTests
    = flat_map (headRecords file baseTests) headTests
      ++ flat_map (baseRecords file headTests) baseTests
  /\ (forall h, (forall b, b ∈ baseTests -> key b <> key h) ->
        headRecords file baseTests h = [directChange added file h])
  /\ (forall h b, firstSameKey baseTests h b -> ti_content b <> ti_content h ->
        headRecords file baseTests h = [directChange modified file h])
  /\ (forall h b, firstSameKey baseTests h b -> ti_content b = ti_content h ->
        headRecords file baseTests h = [])
  /\ (forall b, (forall h, h ∈ headTests -> key h <> key b) ->
        baseRecords file headTests b = [directChange removed file b])
  /\ (forall b h, h ∈ headTests -> key h = key b ->
        baseRecords file headTests b = [])
  /\ (forall r, r ∈ diffTests file baseTests headTests ->
        impactType r = direct /\ impactedBy r = None)
  /\ (NoDup (map key baseTests) ->
      forall h b, b ∈ baseTests -> key b = key h -> ti_content b = ti_content h ->
        headRecords file baseTests h = []).
Proof.
  split; [apply diffTests_flat_map|].
  split; [apply headRecords_added|].
  split.
  { intros h b Hb Hne. rewrite (headRecords_first _ _ _ _ Hb).
    by rewrite bool_decide_eq_false_2. }
  split.
  { intros h b Hb Heq. rewrite (headRecords_first _ _ _ _ Hb).
    by rewrite bool_decide_eq_true_2. }
  split; [apply baseRecords_removed|].
  split; [apply baseRecords_kept|].
  split.
  { intros r. rewrite diffTests_flat_map, elem_of_app, !elem_of_flat_map.
    intros [(h & _ & Hr)|(b & _ & Hr)].
    - apply headRecords_direct in Hr. tauto.
    - apply baseRecords_direct in Hr. tauto. }
  intros Hnd h b Hb Hk Heq.
  rewrite (headRecords_first _ _ _ b) by by apply firstSameKey_unique_keys.
  by rewrite bool_decide_eq_true_2.
Qed.

(** A declaration that moved to another line, alone with its key. *)
Lemma diffTests_first_match_witness :
  let b := {| ti_testName := u "login"; ti_lineNumber := 3;
              ti_content := u "test('login', () => {})"; ti_kind := test |} in
  let h := {| ti_testName := u "login"; ti_lineNumber := 9;
              ti_content := u "test('login', () => {})"; ti_kind := test |} in
  headRecords (u "a.spec.ts") [b] h = [].
Proof.
  intros b h.
  apply (proj2 (proj2 (proj2 (proj2 (proj2 (proj2 (proj2
           (diffTests_first_match (u "a.spec.ts") [b] [h])))))))) with (b := b).
  - apply NoDup_cons. split; [by intros ?%elem_of_nil | apply NoDup_nil_2].
  - apply elem_of_cons. by left.
  - reflexivity.
  - reflexivity.
Defined.

(** C1 as stated fails: diffing a file with itself, where two suites hold
    a test of the same name with different bodies, reports the second
    one Modified although it is in both lists with equal name, kind and
    body. *)
Lemma diffTests_reports_unchanged_duplicate :
  let decls := extractTestsFromContent twoWorks (u "a.spec.ts") in
  exists h b, h ∈ decls /\ b ∈ decls /\
    key b = key h /\ ti_content b = ti_content h /\
    directChange modified (u "a.spec.ts") h ∈ diffTests (u "a.spec.ts") decls decls.
Proof.
  set (h := {| ti_testName := u "works"; ti_lineNumber := 5;
               ti_content := u "  test('works', async () => { b(); });";
               ti_kind := test |}).
  exists h, h.
  assert (h ∈ extractTestsFromContent twoWorks (u "a.spec.ts")) as Hh
    by (apply (bool_decide_unpack _); vm_compute; exact I).
  split; [exact Hh|]. split; [exact Hh|]. split; [done|]. split; [done|].
  apply (bool_decide_unpack _). vm_compute. exact I.
Qed.







(** One pattern yields at most one declaration per line: of two equal
    declarations on one line only the first is extracted. *)
Example same_line_duplicate_once :
  map ti_lineNumber
      (extractTestsFromContent (u "test('a', () => {}); test('a', () => {});") (u "a.spec.ts"))
  = [1].
Proof. by vm_compute. Qed.


(** *** Body capture *)

Lemma countBraces_app a b st :
  countBraces (a ++ b) st = countBraces b (countBraces a st).
Proof. apply fold_left_app. Qed.

Lemma countBraces_join ls st :
  countBraces (join NL ls) st = scanLines ls st.
Proof.
  revert st. induction ls as [|l ls IH]; intros st; [done|].
  destruct ls as [|l' ls]; [done|].
  change (join NL (l :: l' :: ls)) with (l ++ NL :: join NL (l' :: ls)).
  rewrite countBraces_app.
  change (countBraces (NL :: ?x) ?s) with (countBraces x (countChar s NL)).
  change (countChar ?s NL) with s.
  by rewrite IH.
Qed.

Lemma extractTestBody_loop_spec rest acc st :
  exists k,
    k <= length rest
    /\ extractTestBody_loop rest acc st = acc ++ take k rest
    /\ (rest <> [] -> 1 <= k)
    /\ (forall m, 1 <= m < k -> isClosed (scanLines (take m rest) st) = false)
    /\ ((1 <= k /\ isClosed (scanLines (take k rest) st) = true)
        \/ k = length rest
        \/ 500 < length acc + k)
    /\ (k <= 1 \/ length acc + k <= 501).
Proof.
  revert acc st. induction rest as [|line rest IH]; intros acc st.
  - exists 0. simpl. rewrite app_nil_r. repeat split; try done; try lia; try (by right; left).
  - simpl. fold (isClosed (countBraces line st)).
    destruct (isClosed (countBraces line st)) eqn:Hc.
    { exists 1. simpl. rewrite take_0. repeat split; try done; try lia.
      left. split; [lia|]. done. }
    rewrite length_app. simpl.
    destruct (500 <? length acc + 1) eqn:Hcap.
    { apply Nat.ltb_lt in Hcap.
      exists 1. simpl. rewrite take_0. repeat split; try done; try lia. }
    apply Nat.ltb_ge in Hcap.
    destruct (IH (acc ++ [line]) (countBraces line st))
      as (k & Hk & Heq & _ & Hmin & Hend & Hbound).
    rewrite length_app in Hend, Hbound. simpl in Hend, Hbound.
    exists (S k). simpl. repeat split; try lia.
    + by rewrite Heq, <- app_assoc.
    + intros m Hm. destruct m as [|m]; [lia|]. simpl.
      destruct m as [|m]; [by rewrite take_0|]. apply Hmin. lia.
    + destruct Hend as [[Hk1 Hcl]|[->|Hlen]].
      * left. split; [lia|done].
      * right; left. done.
      * right; right. lia.
Qed.

(** The bound that the loop enforces: 501 lines, one more than the
    limit named in its comment. *)
Lemma extractTestBody_loop_bound rest :
  length (extractTestBody_loop rest [] (0%Z, false)) <= 501.
Proof.
  destruct (extractTestBody_loop_spec rest [] (0%Z, false))
    as (k & Hk & -> & _ & _ & _ & Hb).
  simpl in *. rewrite length_take. lia.
Qed.

Example extractTestBody_501_lines :
  length (extractTestBody_loop (u "test('a', () => {" :: repeat (u "  step();") 600)
            [] (0%Z, false)) = 501.
Proof. by vm_compute. Qed.

(** C2 (amended): the body of every extracted declaration is a run of
    whole lines that begins at the declaration's line; it ends at the
    first line after which an open token has been seen and the depth,
    counted over the raw characters of the body, is zero, unless the file
    ends or the line limit is reached before.  So a body cut by neither
    has depth zero at its end, as at its start. *)
Theorem extracted_body_shape (content file : str) (d : TestInfo) :
  d ∈ extractTestsFromContent content file ->
  let lines := split NL content in
  let start := ti_lineNumber d - 1 in
  1 <= ti_lineNumber d /\
  exists n,
    1 <= n /\ start + n <= length lines
    /\ ti_content d = join NL (take n (drop start lines))
    /\ (forall m, 1 <= m < n ->
          isClosed (scanState (join NL (take m (drop start lines)))) = false)
    /\ (isClosed (scanState (ti_content d)) = true
        \/ start + n = length lines
        \/ 500 <= n).
Proof.
  intros (i & p & m & Hi & _ & _ & ->)%elem_of_extractTestsFromContent.
  cbv zeta. simpl. replace (i + 1 - 1) with i by lia. split; [lia|].
  set (lines := split NL content) in *.
  destruct (extractTestBody_loop_spec (drop i lines) [] (0%Z, false))
    as (k & Hk & Heq & Hpos & Hmin & Hend & _).
  rewrite length_drop in Hk. simpl in Heq.
  exists k. split.
  { apply Hpos. intros Hnil. apply (f_equal length) in Hnil.
    rewrite length_drop in Hnil. simpl in Hnil. lia. }
  split; [lia|]. unfold extractTestBody. rewrite Heq.
  split; [done|]. split.
  - intros m' Hm'. unfold scanState. rewrite countBraces_join. by apply Hmin.
  - unfold scanState. rewrite countBraces_join.
    destruct Hend as [[_ Hcl]|[Hlen|Hcap]].
    + by left.
    + right; left. rewrite length_drop in Hlen. lia.
    + right; right. simpl in Hcap. lia.
Qed.

Lemma extracted_body_shape_witness :
  let d := {| ti_testName := u "works"; ti_lineNumber := 2;
              ti_content := u "  test('works', async () => { a(); });";
              ti_kind := test |} in
  exists n, ti_content d = join NL (take n (drop 1 (split NL twoWorks)))
            /\ isClosed (scanState (ti_content d)) = true.
Proof.
  intros d.
  destruct (extracted_body_shape twoWorks (u "a.spec.ts") d)
    as (_ & n & Hn & Hlen & Hbody & Hmin & Hend).
  - apply (bool_decide_unpack _). vm_compute. exact I.
  - exists n. split; [exact Hbody|]. vm_compute. reflexivity.
Defined.

(** C2 as stated fails: a declaration whose braces are still open when
    the file ends is extracted with a body of one line, far from the
    limit, and of depth one at its end. *)
Lemma unterminated_body_is_open :
  let d := {| ti_testName := u "a"; ti_lineNumber := 1;
              ti_content := u "test('a', () => {"; ti_kind := test |} in
  d ∈ extractTestsFromContent (u "test('a', () => {") (u "a.spec.ts")
  /\ length (split NL (ti_content d)) = 1
  /\ scanState (ti_content d) = (1%Z, true).
Proof.
  cbv zeta. split; [|by vm_compute].
  apply (bool_decide_unpack _). vm_compute. exact I.
Qed.

(** *** The matcher on patterns without repetition *)

Lemma elem_of_rmatch_seq r1 r2 t c m :
  m ∈ rmatch (RSeq r1 r2) t c <->
  exists m1, m1 ∈ rmatch r1 t c /\ m ∈ rmatch r2 (fst m1) (snd m1).
Proof. simpl. apply elem_of_flat_map. Qed.

Lemma elem_of_rmatch_alt r1 r2 t c m :
  m ∈ rmatch (RAlt r1 r2) t c <-> m ∈ rmatch r1 t c \/ m ∈ rmatch r2 t c.
Proof. simpl. apply elem_of_app. Qed.

Lemma elem_of_rmatch_eps t c m : m ∈ rmatch REps t c <-> m = (t, c).
Proof. simpl. apply list_elem_of_singleton. Qed.

Lemma elem_of_rmatch_end t c m : m ∈ rmatch REnd t c <-> t = [] /\ m = ([], c).
Proof.
  destruct t; simpl.
  - rewrite list_elem_of_singleton. naive_solver.
  - rewrite elem_of_nil. naive_solver.
Qed.

Lemma elem_of_rmatch_group i r t c m :
  m ∈ rmatch (RGroup i r) t c <->
  exists m1, m1 ∈ rmatch r t c /\
    m = (fst m1, (i, take (length t - length (fst m1)) t) :: snd m1).
Proof. simpl. rewrite list_elem_of_fmap. naive_solver. Qed.

Lemma elem_of_rmatch_char x t c m :
  m ∈ rmatch (RChar x) t c <-> t = x :: fst m /\ snd m = c.
Proof.
  destruct m as [t' c']. destruct t as [|y t]; simpl.
  - rewrite elem_of_nil. naive_solver.
  - destruct (N.eqb_spec y x) as [->|Hne].
    + rewrite list_elem_of_singleton. naive_solver.
    + rewrite elem_of_nil. naive_solver.
Qed.

Lemma elem_of_rmatch_chars (l : str) t c m :
  m ∈ rmatch (foldr (fun x r => RSeq (RChar x) r) REps l) t c <->
  t = l ++ fst m /\ snd m = c.
Proof.
  revert t c. induction l as [|x l IH]; intros t c.
  - rewrite elem_of_rmatch_eps. destruct m. naive_solver.
  - cbn [foldr]. rewrite elem_of_rmatch_seq. split.
    + intros (m1 & [-> Hc]%elem_of_rmatch_char & [Ht Hc']%IH).
      split; [simpl; f_equal; exact Ht | exact (eq_trans Hc' Hc)].
    + intros [-> <-]. exists (l ++ fst m, snd m). split.
      * by apply elem_of_rmatch_char.
      * by apply IH.
Qed.

Lemma elem_of_rmatch_lit s t c m :
  m ∈ rmatch (RLit s) t c <-> t = u s ++ fst m /\ snd m = c.
Proof. apply elem_of_rmatch_chars. Qed.

(** [search] finds a match exactly when the pattern matches at the start
    of some suffix. *)
Lemma search_is_Some r s i :
  is_Some (search r s i) <-> exists pre t, s = pre ++ t /\ rmatch r t [] <> [].
Proof.
  revert i. induction s as [|x s IH]; intros i; simpl.
  - destruct (rmatch r [] []) eqn:E.
    + split; [by intros [? [=]]|]. intros (pre & t & H & Hne).
      symmetry in H. apply app_eq_nil in H as [-> ->]. done.
    + split; [|by eauto]. intros _. exists [], []. by rewrite E.
  - destruct (rmatch r (x :: s) []) eqn:E.
    + rewrite IH. split.
      * intros (pre & t & -> & Hne). by exists (x :: pre), t.
      * intros ([|y pre] & t & H & Hne); simplify_eq/=.
        by exists pre, t.
    + split; [|by eauto]. intros _. exists [], (x :: s). by rewrite E.
Qed.

Lemma regex_test_true r s :
  regex_test r s = true <-> exists pre t, s = pre ++ t /\ rmatch r t [] <> [].
Proof.
  unfold regex_test, regex_exec. rewrite drop_0.
  replace (length s <? 0) with false by (symmetry; apply Nat.ltb_ge; lia).
  rewrite <- (search_is_Some r s 0). destruct (search r s 0); split; try done.
Qed.

Lemma nonempty_elem_of {A} (l : list A) : l <> [] <-> exists x, x ∈ l.
Proof.
  destruct l as [|x l]; split; try done.
  - by intros [x Hx%elem_of_nil].
  - intros _. exists x. apply elem_of_cons. by left.
Qed.

(** *** Progress of the matcher, and the fuel of [exec_loop] *)

Lemma star_iter_length greedy step n s c m :
  (forall s c m, m ∈ step s c -> length (fst m) <= length s) ->
  m ∈ star_iter greedy step n s c -> length (fst m) <= length s.
Proof.
  intros Hstep. revert s c. induction n as [|n IH]; intros s c; simpl.
  - by intros ->%list_elem_of_singleton.
  - assert (m ∈ flat_map (fun m1 => if length (fst m1) <? length s
                                     then star_iter greedy step n (fst m1) (snd m1) else [])
                         (step s c) -> length (fst m) <= length s) as Hmore.
    { intros (m1 & _ & Hm)%elem_of_flat_map.
      destruct (Nat.ltb_spec (length (fst m1)) (length s)) as [Hlt|];
        [|by apply elem_of_nil in Hm].
      apply IH in Hm. lia. }
    destruct greedy.
    + intros [Hm| ->%list_elem_of_singleton]%elem_of_app; [by apply Hmore|done].
    + intros [->|Hm]%elem_of_cons; [done|by apply Hmore].
Qed.

(** A match never leaves more than it was given. *)
Lemma rmatch_length r s c m : m ∈ rmatch r s c -> length (fst m) <= length s.
Proof.
  revert s c m. induction r as [|k| |r1 IH1 r2 IH2|r1 IH1 r2 IH2|greedy r IH|i r IH];
    intros s c m; simpl.
  - by intros ->%list_elem_of_singleton.
  - destruct s as [|x s]; [by intros ?%elem_of_nil|].
    destruct (in_class k x); [|by intros ?%elem_of_nil].
    intros ->%list_elem_of_singleton. simpl. lia.
  - destruct s; [|by intros ?%elem_of_nil]. by intros ->%list_elem_of_singleton.
  - intros (m1 & H1%IH1 & H2%IH2)%elem_of_flat_map. lia.
  - intros [H|H]%elem_of_app; [by apply IH1 in H|by apply IH2 in H].
  - apply star_iter_length. intros s' c' m'. apply IH.
  - intros (m1 & -> & H%IH)%list_elem_of_fmap. done.
Qed.

(** A pattern that begins with a literal character matches no empty
    string. *)
Lemma rmatch_progress x r s c m :
  m ∈ rmatch (RSeq (RChar x) r) s c -> length (fst m) < length s.
Proof.
  intros (m1 & [-> _]%elem_of_rmatch_char & H%rmatch_length)%elem_of_rmatch_seq.
  simpl. lia.
Qed.

Lemma search_bounds r s i m :
  (forall t c m, m ∈ rmatch r t c -> length (fst m) < length t) ->
  search r s i = Some m -> i < m_end m /\ m_end m <= i + length s.
Proof.
  intros Hprog. revert i. induction s as [|x s IH]; intros i; simpl.
  - destruct (rmatch r [] []) as [|m1 l] eqn:E; [done|].
    assert (m1 ∈ rmatch r [] []) as Hm by (rewrite E; apply elem_of_cons; by left).
    apply Hprog in Hm. simpl in Hm. lia.
  - destruct (rmatch r (x :: s) []) as [|m1 l] eqn:E.
    + intros H%IH. lia.
    + assert (m1 ∈ rmatch r (x :: s) []) as Hm by (rewrite E; apply elem_of_cons; by left).
      apply Hprog in Hm. simpl in Hm. intros [= <-]. simpl. lia.
Qed.

(** With a pattern that matches no empty string the loop ends by a
    failed [exec] before its fuel is spent: more fuel changes nothing. *)
Lemma exec_loop_fuel r s :
  (forall t c m, m ∈ rmatch r t c -> length (fst m) < length t) ->
  forall fuel1 fuel2 lastIndex,
    length s - lastIndex < fuel1 -> length s - lastIndex < fuel2 ->
    exec_loop fuel1 r s lastIndex = exec_loop fuel2 r s lastIndex.
Proof.
  intros Hprog. induction fuel1 as [|fuel1 IH]; intros fuel2 lastIndex H1 H2; [lia|].
  destruct fuel2 as [|fuel2]; [lia|]. simpl.
  unfold regex_exec.
  destruct (Nat.ltb_spec (length s) lastIndex) as [|Hle]; [done|].
  destruct (search r (drop lastIndex s) lastIndex) as [m|] eqn:E; [|done].
  apply search_bounds in E as [Hlt Hend]; [|done].
  rewrite length_drop in Hend. f_equal. apply IH; lia.
Qed.

Lemma exec_all_fuel r s extra :
  (forall t c m, m ∈ rmatch r t c -> length (fst m) < length t) ->
  exec_loop (S (length s) + extra) r s 0 = exec_all r s.
Proof. intros Hprog. unfold exec_all. apply exec_loop_fuel; [done|lia|lia]. Qed.

(** The two patterns of [extractImports] begin with a letter. *)
Lemma importPatterns_progress r t c m :
  r = es6ImportPattern \/ r = requirePattern ->
  m ∈ rmatch r t c -> length (fst m) < length t.
Proof.
  intros [->| ->] H.
  - unfold es6ImportPattern, RCat in H. cbn [foldr] in H.
    apply elem_of_rmatch_seq in H as (m1 & [-> _]%elem_of_rmatch_lit & H%rmatch_length).
    rewrite length_app. simpl. lia.
  - unfold requirePattern, RCat in H. cbn [foldr] in H.
    apply elem_of_rmatch_seq in H as (m1 & [-> _]%elem_of_rmatch_lit & H%rmatch_length).
    rewrite length_app. simpl. lia.
Qed.

Lemma extractImports_fuel r s extra :
  r = es6ImportPattern \/ r = requirePattern ->
  exec_loop (S (length s) + extra) r s 0 = exec_all r s.
Proof. intros Hr. apply exec_all_fuel. intros t c m. by apply importPatterns_progress. Qed.

(** Inversion of a match, construct by construct. *)
Ltac rmatch_inv H :=
  lazymatch type of H with
  | _ ∈ rmatch (RLit _) _ _ => apply elem_of_rmatch_lit in H as [? ?]
  | _ ∈ rmatch (RSeq _ _) _ _ => apply elem_of_rmatch_seq in H as ([? ?] & ? & H)
  | _ ∈ rmatch (RAlt _ _) _ _ => apply elem_of_rmatch_alt in H as [H|H]
  | _ ∈ rmatch (RGroup _ _) _ _ => apply elem_of_rmatch_group in H as ([? ?] & H & ?)
  | _ ∈ rmatch REnd _ _ => apply elem_of_rmatch_end in H as [? ?]
  | _ ∈ rmatch REps _ _ => apply elem_of_rmatch_eps in H
  end; cbn [fst snd] in *.

(** *** Classification of paths *)

Lemma testFilePatterns_sound pattern t :
  pattern ∈ testFilePatterns -> rmatch pattern t [] <> [] -> t ∈ testFileSuffixes.
Proof.
  intros Hp [[t' c'] Hm]%nonempty_elem_of.
  unfold testFilePatterns in Hp.
  repeat (apply elem_of_cons in Hp as [->|Hp]); [..|by apply elem_of_nil in Hp].
  all: unfold RCat, sourceExtensions in Hm; cbn [foldr] in Hm.
  all: repeat match goal with H : _ ∈ rmatch _ _ _ |- _ => rmatch_inv H end.
  all: simplify_eq/=.
  all: apply (bool_decide_unpack _); vm_compute; exact I.
Qed.

Lemma testFilePatterns_complete suf :
  suf ∈ testFileSuffixes ->
  exists pattern, pattern ∈ testFilePatterns /\ rmatch pattern suf [] <> [].
Proof.
  intros H. unfold testFileSuffixes in H. cbn [map] in H.
  repeat (apply elem_of_cons in H as [->|H]); [..|by apply elem_of_nil in H].
  1-4: eexists; split; [by apply (list_elem_of_lookup_2 _ 0)|by vm_compute].
  1-4: eexists; split; [by apply (list_elem_of_lookup_2 _ 1)|by vm_compute].
  all: eexists; split; [by apply (list_elem_of_lookup_2 _ 2)|by vm_compute].
Qed.

(** C6 (amended): the classification is a function of the path alone, and
    it holds exactly when the path ends in [.spec.] or [.test.] followed
    by one of ts, js, tsx, jsx, or ends in one of [playwright.ts],
    [playwright.js], [playwright.config.ts], [playwright.config.js]. *)
Theorem isPlaywrightTestFile_suffixes (p : str) :
  isPlaywrightTestFile p = true <->
  exists suf, suf ∈ testFileSuffixes /\ suf `suffix_of` p.
Proof.
  unfold isPlaywrightTestFile. rewrite existsb_exists. split.
  - intros (pattern & Hp%list_elem_of_In & (pre & t & -> & Hm)%regex_test_true).
    exists t. split; [by eapply testFilePatterns_sound|]. by exists pre.
  - intros (suf & (pattern & Hp & Hm)%testFilePatterns_complete & [pre ->]).
    exists pattern. split; [by apply list_elem_of_In|].
    apply regex_test_true. by exists pre, suf.
Qed.

(** C6 as stated fails: a helper module named [playwright.ts] in a
    directory is classified as a test file, though it has no test suffix
    and its path equals no configuration-file name. *)
Lemma isPlaywrightTestFile_not_spec :
  isPlaywrightTestFile (u "helpers/playwright.ts") = true
  /\ specTestFile (u "helpers/playwright.ts") = false.
Proof. by vm_compute. Qed.

(** ** Properties of the part that queries the repository *)

Section Properties.

Variable git_show : str -> str -> option str.
Variable git_cat_file_e : str -> str -> bool.
Variable git_ls_tree : str -> option str.
Variable git_diff : str -> str -> option str.

(** *** The resolver *)

Lemma firstExisting_Some commit paths c :
  firstExisting git_cat_file_e commit paths = Some c <->
  exists i, paths !! i = Some c /\ git_cat_file_e commit c = true /\
    forall j c', j < i -> paths !! j = Some c' -> git_cat_file_e commit c' = false.
Proof.
  induction paths as [|p paths IH]; simpl.
  - split; [done|]. by intros (i & Hi & _).
  - destruct (git_cat_file_e commit p) eqn:E.
    + split.
      * intros [= <-]. exists 0. repeat split; [done|]. intros j c' Hj. lia.
      * intros ([|i] & Hi & Hc & Hmin); simplify_eq/=; [done|].
        specialize (Hmin 0 p). rewrite E in Hmin. discriminate Hmin; [lia|done].
    + rewrite IH. split.
      * intros (i & Hi & Hc & Hmin). exists (S i). repeat split; [done..|].
        intros [|j] c' Hj Hl; simplify_eq/=; [done|]. apply (Hmin j); [lia|done].
      * intros ([|i] & Hi & Hc & Hmin); simplify_eq/=; [congruence|].
        exists i. repeat split; [done..|].
        intros j c' Hj Hl. apply (Hmin (S j)); [lia|done].
Qed.

Lemma firstExisting_None commit paths :
  firstExisting git_cat_file_e commit paths = None <->
  forall c, c ∈ paths -> git_cat_file_e commit c = false.
Proof.
  induction paths as [|p paths IH]; simpl.
  - split; [|done]. by intros _ c Hc%elem_of_nil.
  - destruct (git_cat_file_e commit p) eqn:E.
    + split; [done|]. intros H. rewrite H in E; [done|].
      apply elem_of_cons. by left.
    + rewrite IH. split.
      * intros H c [->|Hc]%elem_of_cons; [done|by apply H].
      * intros H c Hc. apply H, elem_of_cons. by right.
Qed.

(** C5: a specifier that begins with neither [.] nor [/] is unresolved.
    Any other specifier is joined to the directory of the referencing
    file and normalized (a leading slash dropped), and the result is the
    first candidate that exists at the revision, in the order: the
    path itself; the path with .ts, .js, .tsx, .jsx appended; index.ts,
    index.js, index.tsx, index.jsx inside the directory of that name;
    it is unresolved exactly when no candidate exists. *)
Theorem resolveImportPath_probe_order (importSource importingFile commit : str) :
  (startsWith importSource DOT = false -> startsWith importSource SLASH = false ->
   resolveImportPath git_cat_file_e importSource importingFile commit = None)
  /\ (startsWith importSource DOT = true \/ startsWith importSource SLASH = true ->
      let joined := path.normalize (path.join (path.dirname importingFile) importSource) in
      let p := if startsWith joined SLASH then drop 1 joined else joined in
      let candidates :=
        [p; p ++ u ".ts"; p ++ u ".js"; p ++ u ".tsx"; p ++ u ".jsx";
         path.join p (u "index.ts"); path.join p (u "index.js");
         path.join p (u "index.tsx"); path.join p (u "index.jsx")] in
      (forall c,
         resolveImportPath git_cat_file_e importSource importingFile commit = Some c <->
         exists i, candidates !! i = Some c /\ git_cat_file_e commit c = true /\
           forall j c', j < i -> candidates !! j = Some c' ->
                        git_cat_file_e commit c' = false)
      /\ (resolveImportPath git_cat_file_e importSource importingFile commit = None <->
          forall c, c ∈ candidates -> git_cat_file_e commit c = false)).
Proof.
  unfold resolveImportPath. split.
  - by intros -> ->.
  - intros Hrel. cbv zeta.
    replace (negb (startsWith importSource DOT) && negb (startsWith importSource SLASH))
      with false by (by destruct Hrel as [-> | ->]; [|rewrite andb_false_r]).
    split.
    + intros c. apply firstExisting_Some.
    + apply firstExisting_None.
Qed.

(** *** The first loop of [analyze] *)

Lemma classify_fold baseCommit headCommit files st :
  fold_left (classifyStep git_show baseCommit headCommit) files st
  = {| p_fileChanges := p_fileChanges st ++ map (fileChangeOf git_show baseCommit headCommit) files;
       p_directlyImpactedTests :=
         p_directlyImpactedTests st ++ flat_map (directOf git_show baseCommit headCommit) files;
       p_changedTestFiles := p_changedTestFiles st ++ filter isTest files;
       p_changedNonTestFiles :=
         p_changedNonTestFiles st ++ filter (fun f => ~ isTest f) files |}.
Proof.
  revert st. induction files as [|f files IH]; intros st; simpl.
  - rewrite !app_nil_r. by destruct st.
  - rewrite IH. unfold classifyStep, fileChangeOf, directOf, isTest.
    rewrite !filter_cons.
    destruct (isPlaywrightTestFile (cf_path f)) eqn:E; simpl;
      repeat case_decide; try done; by rewrite <- !app_assoc.
Qed.

Lemma classify_spec baseCommit headCommit files :
  classify git_show baseCommit headCommit files
  = {| p_fileChanges := map (fileChangeOf git_show baseCommit headCommit) files;
       p_directlyImpactedTests := flat_map (directOf git_show baseCommit headCommit) files;
       p_changedTestFiles := filter isTest files;
       p_changedNonTestFiles := filter (fun f => ~ isTest f) files |}.
Proof. unfold classify. by rewrite classify_fold. Qed.

Lemma analyzeTestFileChanges_records baseCommit headCommit file r :
  r ∈ analyzeTestFileChanges git_show baseCommit headCommit file ->
  filePath r = file /\ impactType r = direct /\ impactedBy r = None.
Proof.
  clear git_ls_tree git_diff git_cat_file_e.
  unfold analyzeTestFileChanges.
  rewrite diffTests_flat_map, elem_of_app, !elem_of_flat_map.
  intros [(h & _ & Hr)|(b & _ & Hr)].
  - apply headRecords_direct in Hr. tauto.
  - apply baseRecords_direct in Hr. tauto.
Qed.

Lemma directOf_records baseCommit headCommit files r :
  r ∈ flat_map (directOf git_show baseCommit headCommit) files ->
  impactType r = direct /\ impactedBy r = None /\
  exists f, f ∈ files /\ isTest f /\ filePath r = cf_path f.
Proof.
  intros (f & Hf & Hr)%elem_of_flat_map. unfold directOf in Hr.
  destruct (isPlaywrightTestFile (cf_path f)) eqn:E; [|by apply elem_of_nil in Hr].
  apply analyzeTestFileChanges_records in Hr as (? & ? & ?).
  repeat split; [done..|]. by exists f.
Qed.

(** *** The indirect pass *)

Lemma scanImports_cases (headCommit testFile content : str) (changed : gset str)
    (imports : list ImportInfo) :
  (scanImports git_cat_file_e headCommit testFile content changed imports = []
   /\ forall x q, x ∈ imports ->
        resolveImportPath git_cat_file_e (source x) testFile headCommit = Some q ->
        q = [] \/ q ∉ changed)
  \/ exists pre imp post p,
       imports = pre ++ imp :: post
       /\ resolveImportPath git_cat_file_e (source imp) testFile headCommit = Some p
       /\ p <> [] /\ p ∈ changed
       /\ (forall x q, x ∈ pre ->
             resolveImportPath git_cat_file_e (source x) testFile headCommit = Some q ->
             q = [] \/ q ∉ changed)
       /\ scanImports git_cat_file_e headCommit testFile content changed imports
          = map (indirectChange testFile p) (extractTestsFromContent content testFile).
Proof.
  induction imports as [|imp imports IH]; simpl.
  - left. split; [done|]. by intros x q Hx%elem_of_nil.
  - assert (forall pre : list ImportInfo,
              (forall x q, x ∈ pre ->
                 resolveImportPath git_cat_file_e (source x) testFile headCommit = Some q ->
                 q = [] \/ q ∉ changed) ->
              (forall q, resolveImportPath git_cat_file_e (source imp) testFile headCommit = Some q ->
                 q = [] \/ q ∉ changed) ->
              forall x q, x ∈ imp :: pre ->
                resolveImportPath git_cat_file_e (source x) testFile headCommit = Some q ->
                q = [] \/ q ∉ changed) as Hcons.
    { intros pre Hpre Himp x q [->|Hx]%elem_of_cons; [apply Himp | by apply Hpre]. }
    assert ((forall q, resolveImportPath git_cat_file_e (source imp) testFile headCommit = Some q ->
               q = [] \/ q ∉ changed) ->
            (scanImports git_cat_file_e headCommit testFile content changed imports = []
             /\ forall x q, x ∈ imp :: imports ->
                  resolveImportPath git_cat_file_e (source x) testFile headCommit = Some q ->
                  q = [] \/ q ∉ changed)
            \/ exists pre imp' post p,
                 imp :: imports = pre ++ imp' :: post
                 /\ resolveImportPath git_cat_file_e (source imp') testFile headCommit = Some p
                 /\ p <> [] /\ p ∈ changed
                 /\ (forall x q, x ∈ pre ->
                       resolveImportPath git_cat_file_e (source x) testFile headCommit = Some q ->
                       q = [] \/ q ∉ changed)
                 /\ scanImports git_cat_file_e headCommit testFile content changed imports
                    = map (indirectChange testFile p)
                          (extractTestsFromContent content testFile)) as Hskip.
    { intros Himp. destruct IH as [[Hnil Hall]|(pre & imp' & post & p & -> & Hr & Hne & Hin & Hpre & Heq)].
      - left. split; [done|]. by apply Hcons.
      - right. exists (imp :: pre), imp', post, p. repeat split; try done. by apply Hcons. }
    destruct (resolveImportPath git_cat_file_e (source imp) testFile headCommit)
      as [[|c p]|] eqn:E.
    + apply Hskip. intros q [= <-]. by left.
    + case_bool_decide as Hin.
      * right. exists [], imp, imports, (c :: p). repeat split; try done.
        by intros x q Hx%elem_of_nil.
      * apply Hskip. intros q [= <-]. by right.
    + apply Hskip. by intros q [=].
Qed.

Lemma analyzeIndirectImpact_flat_map baseCommit headCommit nonTest tests :
  analyzeIndirectImpact git_show git_cat_file_e git_ls_tree baseCommit headCommit nonTest tests
  = flat_map (indirectOfFile git_show git_cat_file_e headCommit
                (list_to_set (map cf_path nonTest)))
             (unchangedTestFiles git_ls_tree headCommit tests).
Proof. unfold analyzeIndirectImpact. cbv zeta. by rewrite fold_left_push. Qed.

Lemma elem_of_unchangedTestFiles headCommit tests f :
  f ∈ unchangedTestFiles git_ls_tree headCommit tests <->
  f ∈ getAllTestFiles git_ls_tree headCommit /\ f ∉ map cf_path tests.
Proof.
  unfold unchangedTestFiles. rewrite list_elem_of_filter.
  split.
  - intros [Hex Hin]. split; [done|].
    intros (cf & Hp & Hcf)%list_elem_of_fmap.
    assert (existsb (fun cf0 => str_eqb (cf_path cf0) f) tests = true) as Ht; [|congruence].
    apply existsb_exists. exists cf. split; [by apply list_elem_of_In|].
    by apply bool_decide_eq_true.
  - intros [Hin Hno]. split; [|done].
    apply not_true_is_false. intros (cf & Hcf%list_elem_of_In & Heq)%existsb_exists.
    apply bool_decide_eq_true in Heq. apply Hno, list_elem_of_fmap. by exists cf.
Qed.

(** The records of one test file: all of one import, the first that
    resolves to a changed path. *)
Lemma indirectOfFile_records (headCommit : str) (changed : gset str) (testFile : str) :
  indirectOfFile git_show git_cat_file_e headCommit changed testFile = []
  \/ exists content pre imp post p,
       git_show headCommit testFile = Some content
       /\ extractImports content = pre ++ imp :: post
       /\ resolveImportPath git_cat_file_e (source imp) testFile headCommit = Some p
       /\ p <> [] /\ p ∈ changed
       /\ (forall x q, x ∈ pre ->
             resolveImportPath git_cat_file_e (source x) testFile headCommit = Some q ->
             q = [] \/ q ∉ changed)
       /\ indirectOfFile git_show git_cat_file_e headCommit changed testFile
          = map (indirectChange testFile p) (extractTestsFromContent content testFile).
Proof.
  unfold indirectOfFile. destruct (git_show headCommit testFile) as [content|]; [|by left].
  destruct (scanImports_cases headCommit testFile content changed (extractImports content))
    as [[Hnil _]|(pre & imp & post & p & H)].
  - by left.
  - right. by exists content, pre, imp, post, p.
Qed.

Lemma indirectOfFile_inv (headCommit : str) (changed : gset str) (testFile : str) r :
  r ∈ indirectOfFile git_show git_cat_file_e headCommit changed testFile ->
  exists content pre imp post p d,
    git_show headCommit testFile = Some content
    /\ extractImports content = pre ++ imp :: post
    /\ resolveImportPath git_cat_file_e (source imp) testFile headCommit = Some p
    /\ p <> [] /\ p ∈ changed
    /\ (forall x q, x ∈ pre ->
          resolveImportPath git_cat_file_e (source x) testFile headCommit = Some q ->
          q = [] \/ q ∉ changed)
    /\ indirectOfFile git_show git_cat_file_e headCommit changed testFile
       = map (indirectChange testFile p) (extractTestsFromContent content testFile)
    /\ d ∈ extractTestsFromContent content testFile
    /\ r = indirectChange testFile p d.
Proof.
  intros Hr.
  destruct (indirectOfFile_records headCommit changed testFile)
    as [Hnil|(content & pre & imp & post & p & Hc & Hi & Hres & Hne & Hin & Hpre & Heq)].
  - rewrite Hnil in Hr. by apply elem_of_nil in Hr.
  - rewrite Heq in Hr. apply list_elem_of_fmap in Hr as (d & -> & Hd).
    by exists content, pre, imp, post, p, d.
Qed.

Lemma analyzeIndirectImpact_inv baseCommit headCommit nonTest tests r :
  r ∈ analyzeIndirectImpact git_show git_cat_file_e git_ls_tree baseCommit headCommit nonTest tests ->
  filePath r ∈ unchangedTestFiles git_ls_tree headCommit tests
  /\ r ∈ indirectOfFile git_show git_cat_file_e headCommit
           (list_to_set (map cf_path nonTest)) (filePath r).
Proof.
  rewrite analyzeIndirectImpact_flat_map.
  intros (f & Hf & Hr)%elem_of_flat_map.
  destruct (indirectOfFile_inv _ _ _ _ Hr) as (? & ? & ? & ? & p & d & _ & _ & _ & _ & _ & _ & _ & _ & ->).
  by simpl.
Qed.


Lemma indirect_of_analyzeFiles baseCommit headCommit files r :
  r ∈ indirectlyImpactedTests
        (analyzeFiles git_show git_cat_file_e git_ls_tree baseCommit headCommit files) ->
  r ∈ analyzeIndirectImpact git_show git_cat_file_e git_ls_tree baseCommit headCommit
        (filter (fun f => ~ isTest f) files) (filter isTest files).
Proof.
  unfold analyzeFiles. cbn [indirectlyImpactedTests]. rewrite classify_spec.
  cbn [p_changedNonTestFiles p_changedTestFiles].
  destruct (filter (fun f => ~ isTest f) files); [by intros ?%elem_of_nil|done].
Qed.

Lemma analyzeIndirectImpact_record (baseCommit headCommit : str) nonTest tests r :
     r ∈ analyzeIndirectImpact git_show git_cat_file_e git_ls_tree
           baseCommit headCommit nonTest tests ->
     (filePath r ∉ map cf_path tests)
     /\ type r = modified /\ impactType r = indirect
     /\ exists p content pre imp post,
          impactedBy r = Some p /\ p ∈ map cf_path nonTest
          /\ git_show headCommit (filePath r) = Some content
          /\ extractImports content = pre ++ imp :: post
          /\ resolveImportPath git_cat_file_e (source imp) (filePath r) headCommit = Some p
          /\ forall x q, x ∈ pre ->
               resolveImportPath git_cat_file_e (source x) (filePath r) headCommit = Some q ->
               q = [] \/ q ∉ map cf_path nonTest.
Proof.
  intros [Hf Hr]%analyzeIndirectImpact_inv.
  apply elem_of_unchangedTestFiles in Hf as [_ Hf].
  destruct (indirectOfFile_inv _ _ _ _ Hr)
    as (content & pre & imp & post & p & d & Hc & Hi & Hres & _ & Hin & Hpre & _ & _ & Hrd).
  split; [done|]. rewrite Hrd at 1 2. repeat split; try done.
  exists p, content, pre, imp, post. rewrite Hrd at 1. simpl.
  apply elem_of_list_to_set in Hin. repeat split; try done.
  intros x q Hx Hq. destruct (Hpre x q Hx Hq) as [?|Hnot]; [by left|right].
  by rewrite elem_of_list_to_set in Hnot.
Qed.



(** *** Absent content *)

Lemma diffTests_nil_base file headTests :
  diffTests file [] headTests = map (directChange added file) headTests.
Proof.
  rewrite diffTests_flat_map. simpl. rewrite app_nil_r.
  rewrite <- flat_map_singleton_map. apply flat_map_ext_elem.
  intros h _. apply headRecords_added. by intros b Hb%elem_of_nil.
Qed.

Lemma diffTests_nil_head file baseTests :
  diffTests file baseTests [] = map (directChange removed file) baseTests.
Proof.
  rewrite diffTests_flat_map. simpl.
  rewrite <- flat_map_singleton_map. apply flat_map_ext_elem.
  intros b _. apply baseRecords_removed. by intros h Hh%elem_of_nil.
Qed.

(** C7: content that is absent at a revision is no error.  The
    extraction over absent content is the empty list; a test file
    absent at the base has every head declaration reported Added, one
    absent at the head has every base declaration reported Removed;
    and the indirect pass gives what it gives on the readable test
    files alone, a file whose head content cannot be read adding
    nothing. *)
Theorem absent_content_is_no_error (baseCommit headCommit : str) :
  (forall file, testsOf None file = [])
  /\ (forall file, git_show baseCommit file = None ->
        analyzeTestFileChanges git_show baseCommit headCommit file
        = map (directChange added file) (testsOf (git_show headCommit file) file))
  /\ (forall file, git_show headCommit file = None ->
        analyzeTestFileChanges git_show baseCommit headCommit file
        = map (directChange removed file) (testsOf (git_show baseCommit file) file))
  /\ (forall changed testFile, git_show headCommit testFile = None ->
        indirectOfFile git_show git_cat_file_e headCommit changed testFile = [])
  /\ (forall nonTest tests,
        analyzeIndirectImpact git_show git_cat_file_e git_ls_tree
          baseCommit headCommit nonTest tests
        = flat_map (indirectOfFile git_show git_cat_file_e headCommit
                      (list_to_set (map cf_path nonTest)))
                   (filter (fun f => git_show headCommit f <> None)
                           (unchangedTestFiles git_ls_tree headCommit tests))).
Proof.
  split; [done|]. split.
  { intros file Hb. unfold analyzeTestFileChanges. rewrite Hb. simpl.
    apply diffTests_nil_base. }
  split.
  { intros file Hh. unfold analyzeTestFileChanges. rewrite Hh. simpl.
    apply diffTests_nil_head. }
  assert (forall changed testFile, git_show headCommit testFile = None ->
            indirectOfFile git_show git_cat_file_e headCommit changed testFile = [])
    as Hskip.
  { intros changed testFile Hh. unfold indirectOfFile. by rewrite Hh. }
  split; [exact Hskip|].
  intros nonTest tests. rewrite analyzeIndirectImpact_flat_map.
  apply flat_map_filter. intros f _ Hf. apply Hskip.
  destruct (git_show headCommit f); [|done]. by destruct Hf.
Qed.

(** *** The summary *)

Lemma filter_isTestFile baseCommit headCommit files :
  length (filter (fun f => isTestFile f = true)
                 (map (fileChangeOf git_show baseCommit headCommit) files))
  = length (filter isTest files).
Proof.
  induction files as [|f files IH]; [done|]. simpl.
  rewrite !filter_cons. unfold isTest at 1. simpl.
  destruct (decide (isPlaywrightTestFile (cf_path f) = true)); simpl; by rewrite IH.
Qed.

Lemma indirect_records_of_run baseCommit headCommit files r :
  r ∈ indirectlyImpactedTests
        (analyzeFiles git_show git_cat_file_e git_ls_tree baseCommit headCommit files) ->
  type r = modified /\ impactType r = indirect
  /\ exists p content imp,
       impactedBy r = Some p
       /\ (exists f, f ∈ files /\ ~ isTest f /\ cf_path f = p)
       /\ filePath r ∈ getAllTestFiles git_ls_tree headCommit
       /\ git_show headCommit (filePath r) = Some content
       /\ imp ∈ extractImports content
       /\ resolveImportPath git_cat_file_e (source imp) (filePath r) headCommit = Some p.
Proof.
  intros Hr%indirect_of_analyzeFiles.
  destruct (analyzeIndirectImpact_record baseCommit headCommit _ _ _ Hr)
    as (_ & Ht & Hi & p & content & pre & imp & post & Hby & Hp & Hc & Himp & Hres & _).
  apply analyzeIndirectImpact_inv in Hr as [[Hall _]%elem_of_unchangedTestFiles _].
  split; [done|]. split; [done|]. exists p, content, imp. repeat split; try done.
  - apply list_elem_of_fmap in Hp as (f & -> & [Hnt Hf]%list_elem_of_filter). by exists f.
  - rewrite Himp. apply elem_of_app. right. apply elem_of_cons. by left.
Qed.

(** C8: the summary is a projection of the result lists.  Every changed
    file has one entry and counts in totalFilesChanged;
    testFilesChanged counts the changed files classified as test files;
    testsAdded, testsRemoved and testsModified count the direct records
    by changeType; testsIndirectlyImpacted is the length of the
    indirect list.  A changed file that is no test file has no direct
    record, and no indirect record names it when no test file of the
    head imports it, so a run whose one changed file is such a file has
    no record at all, one changed file and no changed test file. *)
Theorem summary_is_projection (baseCommit headCommit : str) (files : list ChangedFile) :
  let res := analyzeFiles git_show git_cat_file_e git_ls_tree baseCommit headCommit files in
  let notImported (f : ChangedFile) :=
    forall testFile content imp,
      testFile ∈ getAllTestFiles git_ls_tree headCommit ->
      git_show headCommit testFile = Some content ->
      imp ∈ extractImports content ->
      resolveImportPath git_cat_file_e (source imp) testFile headCommit
      <> Some (cf_path f) in
  changedFiles res = map (fileChangeOf git_show baseCommit headCommit) files
  /\ totalFilesChanged (summary res) = length files
  /\ testFilesChanged (summary res) = length (filter isTest files)
  /\ testsAdded (summary res)
     = length (filter (fun r => type r = added) (directlyImpactedTests res))
  /\ testsRemoved (summary res)
     = length (filter (fun r => type r = removed) (directlyImpactedTests res))
  /\ testsModified (summary res)
     = length (filter (fun r => type r = modified) (directlyImpactedTests res))
  /\ testsIndirectlyImpacted (summary res) = length (indirectlyImpactedTests res)
  /\ (forall f, f ∈ files -> ~ isTest f ->
        (forall d, d ∈ directlyImpactedTests res -> filePath d <> cf_path f)
        /\ (notImported f ->
            forall r, r ∈ indirectlyImpactedTests res -> impactedBy r <> Some (cf_path f)))
  /\ (forall f, files = [f] -> ~ isTest f -> notImported f ->
        directlyImpactedTests res = [] /\ indirectlyImpactedTests res = []
        /\ totalFilesChanged (summary res) = 1 /\ testFilesChanged (summary res) = 0).
Proof.
  intros res notImported.
  assert (changedFiles res = map (fileChangeOf git_show baseCommit headCommit) files) as Hcf.
  { unfold res, analyzeFiles. cbn [changedFiles]. by rewrite classify_spec. }
  assert (directlyImpactedTests res
          = flat_map (directOf git_show baseCommit headCommit) files) as Hdirect.
  { unfold res, analyzeFiles. cbn [directlyImpactedTests]. by rewrite classify_spec. }
  assert (totalFilesChanged (summary res) = length files) as Htotal.
  { unfold res, analyzeFiles. cbn [summary totalFilesChanged].
    rewrite classify_spec. cbn [p_fileChanges]. by rewrite length_map. }
  assert (testFilesChanged (summary res) = length (filter isTest files)) as Htests.
  { unfold res, analyzeFiles. cbn [summary testFilesChanged].
    rewrite classify_spec. cbn [p_fileChanges]. apply filter_isTestFile. }
  assert (forall f, f ∈ files -> ~ isTest f -> notImported f ->
            forall r, r ∈ indirectlyImpactedTests res -> impactedBy r <> Some (cf_path f))
    as Hnone.
  { intros f Hf Hnt Hno r Hr Hby.
    apply indirect_records_of_run in Hr
      as (_ & _ & p & content & imp & Hp & _ & Hall & Hc & Himp & Hres).
    apply (Hno (filePath r) content imp); [done..|]. congruence. }
  split; [done|]. split; [done|]. split; [done|].
  split; [done|]. split; [done|]. split; [done|]. split; [done|].
  split.
  - intros f Hf Hnt. split; [|by apply Hnone].
    intros d Hd Heq. rewrite Hdirect in Hd.
    apply directOf_records in Hd as (_ & _ & f' & _ & Ht & Hpath).
    apply Hnt. unfold isTest in *. congruence.
  - intros f -> Hnt Hno. split; [|split; [|split]].
    + rewrite Hdirect. simpl. unfold directOf.
      destruct (isPlaywrightTestFile (cf_path f)) eqn:E; [by destruct Hnt|done].
    + apply elem_of_nil_inv. intros r Hr.
      pose proof Hr as Hr'. apply indirect_records_of_run in Hr'
        as (_ & _ & p & _ & _ & Hp & (f' & Hf' & _ & Hpath) & _).
      apply list_elem_of_singleton in Hf' as ->.
      apply (Hnone f (proj2 (list_elem_of_singleton f f) eq_refl) Hnt Hno r Hr).
      congruence.
    + by rewrite Htotal.
    + rewrite Htests, filter_cons. by destruct (decide (isTest f)).
Qed.

(** C9: testsAdded, testsRemoved and testsModified count records of
    Direct origin only.  Every indirect record is Modified, yet none is
    counted in testsModified: over the two lists together, the
    counters are the numbers of Direct records of each changeType, and
    testsIndirectlyImpacted is the number of Indirect records. *)
Theorem direct_counters_exclude_indirect (baseCommit headCommit : str)
    (files : list ChangedFile) :
  let res := analyzeFiles git_show git_cat_file_e git_ls_tree baseCommit headCommit files in
  let all := directlyImpactedTests res ++ indirectlyImpactedTests res in
  let count (t : ChangeType) (o : ImpactType) :=
    length (filter (fun r => type r = t /\ impactType r = o) all) in
  (forall r, r ∈ directlyImpactedTests res -> impactType r = direct)
  /\ (forall r, r ∈ indirectlyImpactedTests res ->
        type r = modified /\ impactType r = indirect)
  /\ testsAdded (summary res) = count added direct
  /\ testsRemoved (summary res) = count removed direct
  /\ testsModified (summary res) = count modified direct
  /\ testsIndirectlyImpacted (summary res) = count modified indirect
  /\ count added indirect = 0 /\ count removed indirect = 0.
Proof.
  clear git_diff.
  intros res all count.
  assert (forall r, r ∈ directlyImpactedTests res -> impactType r = direct) as Hd.
  { intros r Hr. unfold res, analyzeFiles in Hr. cbn [directlyImpactedTests] in Hr.
    rewrite classify_spec in Hr. cbn [p_directlyImpactedTests] in Hr.
    by apply directOf_records in Hr as (? & _). }
  assert (forall r, r ∈ indirectlyImpactedTests res ->
            type r = modified /\ impactType r = indirect) as Hi.
  { intros r Hr. apply indirect_records_of_run in Hr. tauto. }
  assert (forall t, count t direct
            = length (filter (fun r => type r = t) (directlyImpactedTests res))) as Hcd.
  { intros t. unfold count, all. rewrite filter_app, length_app.
    rewrite (filter_none _ (indirectlyImpactedTests res)).
    - simpl. rewrite Nat.add_0_r. f_equal. apply filter_ext_elem.
      intros r Hr. specialize (Hd r Hr). tauto.
    - intros r Hr [_ Ho]. apply Hi in Hr as [_ Hr]. congruence. }
  assert (forall t, count t indirect
            = length (filter (fun r => type r = t) (indirectlyImpactedTests res))) as Hci.
  { intros t. unfold count, all. rewrite filter_app, length_app.
    rewrite (filter_none _ (directlyImpactedTests res)).
    - simpl. f_equal. apply filter_ext_elem.
      intros r Hr. apply Hi in Hr. tauto.
    - intros r Hr [_ Ho]. apply Hd in Hr. congruence. }
  split; [done|]. split; [done|].
  rewrite !Hcd, !Hci.
  split; [done|]. split; [done|]. split; [done|]. split; [|split].
  - unfold res at 1, analyzeFiles. cbn [summary testsIndirectlyImpacted].
    fold res.
    rewrite filter_all; [done|]. intros r Hr. by apply Hi in Hr as [? _].
  - rewrite filter_none; [done|]. intros r Hr Ht. apply Hi in Hr as [? _]. congruence.
  - rewrite filter_none; [done|]. intros r Hr Ht. apply Hi in Hr as [? _]. congruence.
Qed.

End Properties.

(** *** The list of changed files *)

Lemma split_notin (sep : N) (a : str) : sep ∉ a -> split sep a = [a].
Proof.
  induction a as [|c a IH]; intros Hn; [done|]. simpl.
  destruct (N.eqb_spec c sep) as [->|Hne].
  - destruct Hn. apply elem_of_cons. by left.
  - rewrite IH; [done|]. intros Ha. apply Hn, elem_of_cons. by right.
Qed.

Lemma split_app_sep (sep : N) (a b : str) :
  sep ∉ a -> split sep (a ++ sep :: b) = a :: split sep b.
Proof.
  induction a as [|c a IH]; intros Hn; simpl.
  - by rewrite N.eqb_refl.
  - destruct (N.eqb_spec c sep) as [->|Hne].
    + destruct Hn. apply elem_of_cons. by left.
    + rewrite IH; [done|]. intros Ha. apply Hn, elem_of_cons. by right.
Qed.

Lemma trimStart_snoc (l : str) (c : N) : is_space c = false -> trimStart (l ++ [c]) <> [].
Proof.
  intros Hc. induction l as [|x l IH]; simpl.
  - by rewrite Hc.
  - by destruct (is_space x).
Qed.

Lemma trim_nonempty (c : N) (rest : str) : is_space c = false -> trim (c :: rest) <> [].
Proof.
  intros Hc. unfold trim, trimEnd. simpl. rewrite Hc. simpl.
  intros H. apply (f_equal (@rev N)) in H. rewrite rev_involutive in H. simpl in H.
  by apply (trimStart_snoc (rev rest) c).
Qed.

Lemma parseStatusLine_renamed (score old new : str) :
  TAB ∉ score -> TAB ∉ old -> TAB ∉ new -> new <> [] ->
  parseStatusLine (u "R" ++ score ++ TAB :: old ++ TAB :: new)
  = Some {| cf_path := new; cf_changeType := file_renamed |}.
Proof.
  intros Hs Ho Hn Hne. unfold parseStatusLine.
  change (u "R" ++ score ++ TAB :: old ++ TAB :: new)
    with (82%N :: score ++ TAB :: old ++ TAB :: new).
  destruct (trim (82%N :: score ++ TAB :: old ++ TAB :: new)) eqn:E.
  { by apply trim_nonempty in E. }
  clear E. cbv zeta.
  change (82%N :: score ++ TAB :: old ++ TAB :: new)
    with ((82%N :: score) ++ TAB :: old ++ TAB :: new).
  rewrite split_app_sep.
  2:{ intros [H|H]%elem_of_cons; [done|by apply Hs]. }
  rewrite split_app_sep by done. rewrite split_notin by done.
  simpl. by destruct new.
Qed.

Lemma parseStatusLine_renamed_inv (line : str) (f : ChangedFile) :
  parseStatusLine line = Some f -> cf_changeType f = file_renamed ->
  statusChar (split TAB line) = Some 82%N /\ split TAB line !! 2 = Some (cf_path f).
Proof.
  unfold parseStatusLine. destruct (trim line); [done|]. cbv zeta.
  destruct (statusChar (split TAB line)) as [c|]; [|done]. simpl.
  unfold statusOf.
  destruct (N.eqb_spec c 65); [|destruct (N.eqb_spec c 68); [|destruct (N.eqb_spec c 77);
    [|destruct (N.eqb_spec c 82) as [->|]; [|done]]]].
  1-3: by destruct (split TAB line !! 1) as [[|]|]; intros [= <-].
  destruct (split TAB line !! 2) as [[|x p]|]; [done| |done].
  by intros [= <-].
Qed.

Lemma getChangedFiles_flat_map git_diff (baseCommit headCommit output : str) :
  git_diff baseCommit headCommit = Some output ->
  getChangedFiles git_diff baseCommit headCommit
  = Some (flat_map (fun line => option_list (parseStatusLine line))
                   (split NL (trim output))).
Proof.
  intros E. unfold getChangedFiles. rewrite E. f_equal.
  rewrite <- (app_nil_l (flat_map _ _)), <- fold_left_push.
  apply fold_left_ext. intros acc line.
  destruct (parseStatusLine line); simpl; [done|by rewrite app_nil_r].
Qed.

(** C10: a line of the diff with status R gives the changed file its
    third field, the new path, with the change type renamed; the old
    path is in no field of the entry.  The entry of the file in the
    result carries that path and its classification, and the diff of a
    renamed test file depends on the repository through the content of
    the new path at the two revisions only; where the base has no
    content under it, every head declaration is reported Added. *)
Theorem renamed_file_uses_new_path :
  (forall score old new,
     TAB ∉ score -> TAB ∉ old -> TAB ∉ new -> new <> [] ->
     parseStatusLine (u "R" ++ score ++ TAB :: old ++ TAB :: new)
     = Some {| cf_path := new; cf_changeType := file_renamed |})
  /\ (forall line f,
        parseStatusLine line = Some f -> cf_changeType f = file_renamed ->
        statusChar (split TAB line) = Some 82%N
        /\ split TAB line !! 2 = Some (cf_path f))
  /\ (forall git_diff baseCommit headCommit output,
        git_diff baseCommit headCommit = Some output ->
        getChangedFiles git_diff baseCommit headCommit
        = Some (flat_map (fun line => option_list (parseStatusLine line))
                         (split NL (trim output))))
  /\ (forall git_show git_cat_file_e git_ls_tree baseCommit headCommit files,
        changedFiles (analyzeFiles git_show git_cat_file_e git_ls_tree
                        baseCommit headCommit files)
        = map (fun f =>
                 {| fc_filePath := cf_path f;
                    fc_changeType := cf_changeType f;
                    isTestFile := isPlaywrightTestFile (cf_path f);
                    testChanges :=
                      if isPlaywrightTestFile (cf_path f)
                      then Some (analyzeTestFileChanges git_show baseCommit headCommit
                                   (cf_path f))
                      else None |}) files)
  /\ (forall (show1 show2 : str -> str -> option str) baseCommit headCommit newPath,
        show1 baseCommit newPath = show2 baseCommit newPath ->
        show1 headCommit newPath = show2 headCommit newPath ->
        analyzeTestFileChanges show1 baseCommit headCommit newPath
        = analyzeTestFileChanges show2 baseCommit headCommit newPath)
  /\ (forall git_show baseCommit headCommit newPath,
        git_show baseCommit newPath = None ->
        analyzeTestFileChanges git_show baseCommit headCommit newPath
        = map (directChange added newPath) (testsOf (git_show headCommit newPath) newPath)).
Proof.
  split; [exact parseStatusLine_renamed|].
  split; [exact parseStatusLine_renamed_inv|].
  split; [exact getChangedFiles_flat_map|].
  split.
  { intros. unfold analyzeFiles. cbn [changedFiles]. by rewrite classify_spec. }
  split.
  { intros show1 show2 b h p Hb Hh. unfold analyzeTestFileChanges. by rewrite Hb, Hh. }
  intros git_show b h p Hb. unfold analyzeTestFileChanges. rewrite Hb. simpl.
  apply diffTests_nil_base.
Qed.

(** ** The example repository *)

(** [../utils/helpers], imported from [tests/a.spec.ts], is the module
    [utils/helpers.ts]: the second candidate, the literal path
    [utils/helpers] naming no object of the revision. *)
Lemma resolveImportPath_probe_order_witness :
  resolveImportPath (Fake.cat_file_e exampleRepo)
    (u "../utils/helpers") (u "tests/a.spec.ts") (u "head")
  = Some (u "utils/helpers.ts").
Proof.
  destruct (resolveImportPath_probe_order (Fake.cat_file_e exampleRepo)
              (u "../utils/helpers") (u "tests/a.spec.ts") (u "head")) as [_ H].
  destruct H as [H _]; [left; reflexivity|].
  apply H. exists 1.
  split; [vm_compute; reflexivity|]. split; [vm_compute; reflexivity|].
  intros j c' Hj Hc.
  destruct j as [|j];
    [vm_compute in Hc; injection Hc as <-; vm_compute; reflexivity|].
  lia.
Defined.

(** The literal path is probed first and a directory is an object of the
    revision: [./fixtures], imported from [tests/a.spec.ts], resolves to
    the directory [tests/fixtures], not to its index file. *)
Example resolveImportPath_directory :
  Fake.cat_file_e exampleRepo (u "head") (u "tests/fixtures") = true
  /\ Fake.cat_file_e exampleRepo (u "head") (u "tests/fixtures/index.ts") = true
  /\ resolveImportPath (Fake.cat_file_e exampleRepo)
       (u "./fixtures") (u "tests/a.spec.ts") (u "head")
     = Some (u "tests/fixtures").
Proof. vm_compute. done. Qed.


(** [tests/new.spec.ts] has no content at the base: its declaration is
    reported Added. *)
Lemma absent_content_is_no_error_witness :
  analyzeTestFileChanges (Fake.show exampleRepo) (u "base") (u "head") (u "tests/new.spec.ts")
  = [ {| type := added; testName := u "kept"; filePath := u "tests/new.spec.ts";
         lineNumber := 1; changeKind := test; impactType := direct;
         impactedBy := None |} ].
Proof.
  destruct (absent_content_is_no_error (Fake.show exampleRepo) (Fake.cat_file_e exampleRepo)
              (Fake.ls_tree exampleRepo) (u "base") (u "head")) as (_ & H & _).
  rewrite H; [|reflexivity]. vm_compute. reflexivity.
Defined.

(** From [d0] to [d1] only [package.json] changes, which no test file
    imports. *)
Lemma summary_is_projection_witness :
  let res := analyzeFiles (Fake.show exampleRepo) (Fake.cat_file_e exampleRepo)
               (Fake.ls_tree exampleRepo) (u "d0") (u "d1")
               [ {| cf_path := u "package.json"; cf_changeType := file_modified |} ] in
  directlyImpactedTests res = [] /\ indirectlyImpactedTests res = []
  /\ totalFilesChanged (summary res) = 1 /\ testFilesChanged (summary res) = 0.
Proof.
  cbv zeta.
  set (f := {| cf_path := u "package.json"; cf_changeType := file_modified |}).
  destruct (summary_is_projection (Fake.show exampleRepo) (Fake.cat_file_e exampleRepo)
              (Fake.ls_tree exampleRepo) (u "d0") (u "d1") [f])
    as (_ & _ & _ & _ & _ & _ & _ & _ & H).
  apply (H f); [reflexivity | by vm_compute |].
  intros testFile content imp Ht Hc Hi.
  assert (getAllTestFiles (Fake.ls_tree exampleRepo) (u "d1") = [u "tests/a.spec.ts"]) as Hall
    by (vm_compute; reflexivity).
  rewrite Hall in Ht. apply list_elem_of_singleton in Ht. subst testFile.
  assert (Fake.show exampleRepo (u "d1") (u "tests/a.spec.ts") = Some aSpec) as Hshow
    by (vm_compute; reflexivity).
  rewrite Hshow in Hc. injection Hc as <-.
  assert (extractImports aSpec
          = [ {| source := u "@playwright/test"; im_lineNumber := 1 |};
              {| source := u "../utils/helpers"; im_lineNumber := 2 |};
              {| source := u "./fixtures"; im_lineNumber := 3 |} ]) as Himp
    by (vm_compute; reflexivity).
  rewrite Himp in Hi.
  repeat (apply elem_of_cons in Hi as [->|Hi]); [..|by apply elem_of_nil in Hi];
    by vm_compute.
Defined.

(** The line of the renamed test file in the diff from [base] to [head]. *)
Lemma renamed_file_uses_new_path_witness :
  parseStatusLine (u "R" ++ u "100" ++ TAB :: u "tests/old.spec.ts" ++ TAB :: u "tests/new.spec.ts")
  = Some {| cf_path := u "tests/new.spec.ts"; cf_changeType := file_renamed |}.
Proof.
  apply (proj1 renamed_file_uses_new_path).
  - apply (bool_decide_unpack _). vm_compute. exact I.
  - apply (bool_decide_unpack _). vm_compute. exact I.
  - apply (bool_decide_unpack _). vm_compute. exact I.
  - discriminate.
Defined.

(** The run from [base] to [head] as a whole. *)
Example example_run :
  option_map summary (Fake.run exampleRepo (u "base") (u "head"))
  = Some {| totalFilesChanged := 4; testFilesChanged := 1; testsAdded := 1;
            testsRemoved := 0; testsModified := 0; testsIndirectlyImpacted := 2 |}.
Proof. by vm_compute. Qed.

(** ** Further properties of the analyzer *)

Lemma flat_map_nil_all {A B} (f : A -> list B) (l : list A) :
  (forall x, x ∈ l -> f x = []) -> flat_map f l = [].
Proof.
  induction l as [|x l IH]; intros H; simpl; [done|].
  rewrite H by (apply elem_of_cons; by left).
  apply IH. intros y Hy. apply H, elem_of_cons. by right.
Qed.

Lemma filter_flat_map {A B} (P : B -> Prop) `{forall x, Decision (P x)}
    (f : A -> list B) (l : list A) :
  filter P (flat_map f l) = flat_map (fun x => filter P (f x)) l.
Proof.
  induction l as [|x l IH]; simpl; [done|]. by rewrite filter_app, IH.
Qed.

Lemma map_flat_map {A B C} (g : B -> C) (f : A -> list B) (l : list A) :
  map g (flat_map f l) = flat_map (fun x => map g (f x)) l.
Proof.
  induction l as [|x l IH]; simpl; [done|]. by rewrite map_app, IH.
Qed.

(** *** Body capture is local *)

Lemma extractTestBody_loop_cons (l : str) (rest acc : list str) (st : Z * bool) :
  extractTestBody_loop (l :: rest) acc st
  = if isClosed (countBraces l st) then acc ++ [l]
    else if 500 <? length (acc ++ [l]) then acc ++ [l]
         else extractTestBody_loop rest (acc ++ [l]) (countBraces l st).
Proof. reflexivity. Qed.

Lemma extractTestBody_loop_block (B C acc : list str) (st : Z * bool) :
  B <> [] -> closesAtEnd B st -> length acc + length B <= 501 ->
  extractTestBody_loop (B ++ C) acc st = acc ++ B.
Proof.
  revert acc st. induction B as [|l B IH]; intros acc st Hne [Hend Hmin] Hlen; [done|].
  change ((l :: B) ++ C) with (l :: (B ++ C)). rewrite extractTestBody_loop_cons.
  destruct B as [|l2 B].
  - simpl in Hend. by rewrite Hend.
  - assert (isClosed (countBraces l st) = false) as Hopen.
    { apply (Hmin 1). simpl. lia. }
    rewrite Hopen. rewrite length_app. simpl in Hlen. simpl length.
    replace (500 <? length acc + 1) with false
      by (symmetry; apply Nat.ltb_ge; lia).
    rewrite (IH (acc ++ [l]) (countBraces l st)).
    + by rewrite <- app_assoc.
    + done.
    + split; [exact Hend|]. intros m Hm.
      apply (Hmin (S m)). simpl in *. lia.
    + rewrite length_app. simpl. lia.
Qed.

(** X1: the captured body of a declaration depends on its own block of
    lines only.  If the lines from the declaration on form a block that
    closes at its last line and not before, of at most 501 lines, the
    body is this block, whatever the lines before and after it are. *)
Theorem extractTestBody_local (A B C : list str) :
  B <> [] -> closesAtEnd B (0%Z, false) -> length B <= 501 ->
  extractTestBody (A ++ B ++ C) (length A) = join NL B.
Proof.
  intros Hne Hclose Hlen. unfold extractTestBody.
  rewrite drop_app_length.
  by rewrite (extractTestBody_loop_block B C [] (0%Z, false)).
Qed.

Lemma extractTestBody_local_witness :
  extractTestBody ([u "// a comment"]
                   ++ [u "test('a', () => {"; u "  step();"; u "});"]
                   ++ [u "test('b', () => {});"]) 1
  = u "test('a', () => {
  step();
});".
Proof.
  apply (extractTestBody_local [u "// a comment"]
           [u "test('a', () => {"; u "  step();"; u "});"]
           [u "test('b', () => {});"]).
  - discriminate.
  - split; [vm_compute; reflexivity|].
    intros m Hm. simpl in Hm.
    destruct m as [|[|[|m]]]; [lia|vm_compute; reflexivity|vm_compute; reflexivity|lia].
  - simpl. lia.
Defined.

(** *** The differ on lists that agree *)

(** X2: when every head declaration has a base declaration of the same
    name, kind and body, every base declaration has a head declaration
    of its name and kind, and the (name, kind) pairs of the base are
    pairwise distinct, the diff is empty: no order of the declarations
    and no line number makes a record. *)
Theorem diffTests_unchanged (file : str) (baseTests headTests : list TestInfo) :
  NoDup (map key baseTests) ->
  (forall h, h ∈ headTests -> exists b, b ∈ baseTests /\ sameDeclaration b h) ->
  (forall b, b ∈ baseTests -> exists h, h ∈ headTests /\ key h = key b) ->
  diffTests file baseTests headTests = [].
Proof.
  intros Hnd Hhead Hbase. rewrite diffTests_flat_map.
  rewrite !flat_map_nil_all; [done| |].
  - intros b Hb. destruct (Hbase b Hb) as (h & Hh & Hk). by eapply baseRecords_kept.
  - intros h Hh. destruct (Hhead h Hh) as (b & Hb & Hk & Hc).
    rewrite (headRecords_first _ _ _ b) by by apply firstSameKey_unique_keys.
    by rewrite bool_decide_eq_true_2.
Qed.

Lemma diffTests_unchanged_witness :
  let a3 := {| ti_testName := u "a"; ti_lineNumber := 3;
               ti_content := u "test('a', () => {})"; ti_kind := test |} in
  let b5 := {| ti_testName := u "b"; ti_lineNumber := 5;
               ti_content := u "test('b', () => {})"; ti_kind := test |} in
  let a9 := {| ti_testName := u "a"; ti_lineNumber := 9;
               ti_content := u "test('a', () => {})"; ti_kind := test |} in
  let b1 := {| ti_testName := u "b"; ti_lineNumber := 1;
               ti_content := u "test('b', () => {})"; ti_kind := test |} in
  diffTests (u "a.spec.ts") [a3; b5] [b1; a9] = [].
Proof.
  intros a3 b5 a9 b1. apply diffTests_unchanged.
  - apply (bool_decide_unpack _). vm_compute. exact I.
  - intros h Hh. apply elem_of_cons in Hh as [->|Hh];
      [|apply list_elem_of_singleton in Hh as ->].
    + exists b5. split; [|done]. apply elem_of_cons. right. apply elem_of_cons. by left.
    + exists a3. split; [|done]. apply elem_of_cons. by left.
  - intros b Hb. apply elem_of_cons in Hb as [->|Hb];
      [|apply list_elem_of_singleton in Hb as ->].
    + exists a9. split; [|done]. apply elem_of_cons. right. apply elem_of_cons. by left.
    + exists b1. split; [|done]. apply elem_of_cons. by left.
Defined.

Lemma headRecords_added_part file baseTests h :
  filter (fun r => type r = added) (headRecords file baseTests h)
  = match findTest h baseTests with
    | None => [directChange added file h]
    | Some _ => []
    end.
Proof.
  unfold headRecords, headStep. destruct (findTest h baseTests) as [b|]; [|done].
  by destruct (negb _).
Qed.

Lemma baseRecords_removed_part file headTests b :
  filter (fun r => type r = removed) (baseRecords file headTests b)
  = baseRecords file headTests b.
Proof. unfold baseRecords, baseStep. by destruct (findTest b headTests). Qed.

(** X3: the diff read backwards.  The Removed records of the diff from
    head to base are the Added records of the diff from base to head, in
    the same order and for the same declarations, with the change type
    replaced; and the other way round. *)
Theorem diffTests_swap (file : str) (baseTests headTests : list TestInfo) :
  filter (fun r => type r = removed) (diffTests file headTests baseTests)
  = map (withType removed)
        (filter (fun r => type r = added) (diffTests file baseTests headTests))
  /\ filter (fun r => type r = added) (diffTests file headTests baseTests)
     = map (withType added)
           (filter (fun r => type r = removed) (diffTests file baseTests headTests)).
Proof.
  assert (forall l1 l2,
            filter (fun r => type r = removed) (diffTests file l1 l2)
            = flat_map (baseRecords file l2) l1) as Hrem.
  { intros l1 l2. rewrite diffTests_flat_map, filter_app, !filter_flat_map.
    rewrite (flat_map_nil_all (fun x => filter _ (headRecords file l1 x))).
    - simpl. apply flat_map_ext_elem. intros b _. apply baseRecords_removed_part.
    - intros h _. apply filter_none. intros r Hr%headRecords_direct. tauto. }
  assert (forall l1 l2,
            filter (fun r => type r = added) (diffTests file l1 l2)
            = flat_map (fun h => match findTest h l1 with
                                 | None => [directChange added file h]
                                 | Some _ => []
                                 end) l2) as Hadd.
  { intros l1 l2. rewrite diffTests_flat_map, filter_app, !filter_flat_map.
    rewrite (flat_map_nil_all (fun x => filter _ (baseRecords file l2 x))).
    - rewrite app_nil_r. apply flat_map_ext_elem. intros h _.
      apply headRecords_added_part.
    - intros b _. apply filter_none. intros r Hr%baseRecords_direct.
      destruct Hr as (_ & _ & _ & _ & _ & _ & ->). done. }
  rewrite !Hrem, !Hadd, !map_flat_map. split.
  - apply flat_map_ext_elem. intros h _. unfold baseRecords, baseStep.
    by destruct (findTest h baseTests).
  - apply flat_map_ext_elem. intros b _. unfold baseRecords, baseStep.
    by destruct (findTest b headTests).
Qed.

(** *** What a match consumes and captures *)

Lemma star_iter_prefix greedy step n s c m :
  (forall s c m, m ∈ step s c -> exists pre, s = pre ++ fst m) ->
  m ∈ star_iter greedy step n s c -> exists pre, s = pre ++ fst m.
Proof.
  intros Hstep. revert s c. induction n as [|n IH]; intros s c; simpl.
  - intros ->%list_elem_of_singleton. by exists [].
  - assert (m ∈ flat_map (fun m1 => if length (fst m1) <? length s
                                     then star_iter greedy step n (fst m1) (snd m1) else [])
                         (step s c) -> exists pre, s = pre ++ fst m) as Hmore.
    { intros (m1 & [p1 H1]%Hstep & Hm)%elem_of_flat_map.
      destruct (length (fst m1) <? length s); [|by apply elem_of_nil in Hm].
      apply IH in Hm as [p2 H2]. exists (p1 ++ p2). by rewrite <- app_assoc, <- H2. }
    destruct greedy.
    + intros [Hm| ->%list_elem_of_singleton]%elem_of_app; [by apply Hmore|by exists []].
    + intros [->|Hm]%elem_of_cons; [by exists []|by apply Hmore].
Qed.

(** What is left after a match is a suffix of the subject. *)
Lemma rmatch_prefix r s c m : m ∈ rmatch r s c -> exists pre, s = pre ++ fst m.
Proof.
  revert s c m. induction r as [|k| |r1 IH1 r2 IH2|r1 IH1 r2 IH2|greedy r IH|i r IH];
    intros s c m; simpl.
  - intros ->%list_elem_of_singleton. by exists [].
  - destruct s as [|x s]; [by intros ?%elem_of_nil|].
    destruct (in_class k x); [|by intros ?%elem_of_nil].
    intros ->%list_elem_of_singleton. by exists [x].
  - destruct s; [|by intros ?%elem_of_nil]. intros ->%list_elem_of_singleton. by exists [].
  - intros (m1 & [p1 H1]%IH1 & [p2 H2]%IH2)%elem_of_flat_map.
    exists (p1 ++ p2). by rewrite <- app_assoc, <- H2.
  - intros [H|H]%elem_of_app; [by apply IH1 in H|by apply IH2 in H].
  - apply star_iter_prefix. intros s' c' m'. apply IH.
  - intros (m1 & -> & H%IH)%list_elem_of_fmap. done.
Qed.

Lemma star_iter_captures greedy step n s c m :
  (forall s c m, m ∈ step s c -> snd m = c) ->
  m ∈ star_iter greedy step n s c -> snd m = c.
Proof.
  intros Hstep. revert s c. induction n as [|n IH]; intros s c; simpl.
  - by intros ->%list_elem_of_singleton.
  - assert (m ∈ flat_map (fun m1 => if length (fst m1) <? length s
                                     then star_iter greedy step n (fst m1) (snd m1) else [])
                         (step s c) -> snd m = c) as Hmore.
    { intros (m1 & H1%Hstep & Hm)%elem_of_flat_map.
      destruct (length (fst m1) <? length s); [|by apply elem_of_nil in Hm].
      apply IH in Hm. congruence. }
    destruct greedy.
    + intros [Hm| ->%list_elem_of_singleton]%elem_of_app; [by apply Hmore|done].
    + intros [->|Hm]%elem_of_cons; [done|by apply Hmore].
Qed.

(** A pattern without group leaves the captures as they are. *)
Lemma rmatch_groupFree r s c m : groupFree r = true -> m ∈ rmatch r s c -> snd m = c.
Proof.
  revert s c m. induction r as [|k| |r1 IH1 r2 IH2|r1 IH1 r2 IH2|greedy r IH|i r IH];
    intros s c m Hg; simpl in *.
  - by intros ->%list_elem_of_singleton.
  - destruct s as [|x s]; [by intros ?%elem_of_nil|].
    destruct (in_class k x); [|by intros ?%elem_of_nil].
    by intros ->%list_elem_of_singleton.
  - destruct s; [|by intros ?%elem_of_nil]. by intros ->%list_elem_of_singleton.
  - apply andb_true_iff in Hg as [Hg1 Hg2].
    intros (m1 & H1 & H2)%elem_of_flat_map.
    apply IH1 in H1; [|done]. apply IH2 in H2; [|done]. congruence.
  - apply andb_true_iff in Hg as [Hg1 Hg2].
    intros [H|H]%elem_of_app; [by apply IH1 in H|by apply IH2 in H].
  - apply star_iter_captures. intros s' c' m'. by apply IH.
  - done.
Qed.

Lemma elem_of_rmatch_cls k s c m :
  m ∈ rmatch (RCls k) s c <-> exists x, s = x :: fst m /\ in_class k x = true /\ snd m = c.
Proof.
  destruct m as [t' c']. destruct s as [|y t]; simpl.
  - rewrite elem_of_nil. split; [done|]. by intros (x & [=] & _).
  - destruct (in_class k y) eqn:E.
    + rewrite list_elem_of_singleton. split.
      * intros [= <- <-]. by exists y.
      * by intros (x & [= <- <-] & _ & <-).
    + rewrite elem_of_nil. split; [done|].
      intros (x & [= <- <-] & Hx & _). congruence.
Qed.

Lemma star_iter_cls greedy k n s c m :
  m ∈ star_iter greedy (rmatch (RCls k)) n s c ->
  exists pre, s = pre ++ fst m /\ Forall (fun y => in_class k y = true) pre /\ snd m = c.
Proof.
  revert s c. induction n as [|n IH]; intros s c; simpl.
  - intros ->%list_elem_of_singleton. by exists [].
  - assert (m ∈ flat_map (fun m1 => if length (fst m1) <? length s
                                     then star_iter greedy (rmatch (RCls k)) n (fst m1) (snd m1)
                                     else [])
                         (rmatch (RCls k) s c) ->
            exists pre, s = pre ++ fst m /\ Forall (fun y => in_class k y = true) pre
                        /\ snd m = c) as Hmore.
    { intros (m1 & (x & -> & Hx & Hc)%elem_of_rmatch_cls & Hm)%elem_of_flat_map.
      destruct (length (fst m1) <? length (x :: fst m1)); [|by apply elem_of_nil in Hm].
      apply IH in Hm as (pre & Hpre & Hall & Hc').
      exists (x :: pre). split; [simpl; by f_equal|]. split; [by constructor|congruence]. }
    destruct greedy.
    + intros [Hm| ->%list_elem_of_singleton]%elem_of_app; [by apply Hmore|by exists []].
    + intros [->|Hm]%elem_of_cons; [by exists []|by apply Hmore].
Qed.

(** One or more characters of a class. *)
Lemma rmatch_plus_cls greedy k s c m :
  m ∈ rmatch (RPlus greedy (RCls k)) s c ->
  exists text, s = text ++ fst m /\ text <> []
               /\ Forall (fun y => in_class k y = true) text /\ snd m = c.
Proof.
  intros (m1 & (x & -> & Hx & Hc)%elem_of_rmatch_cls & Hm)%elem_of_rmatch_seq.
  simpl in Hm. apply star_iter_cls in Hm as (pre & Hpre & Hall & Hc').
  exists (x :: pre). split; [simpl; by f_equal|]. split; [done|].
  split; [by constructor|congruence].
Qed.

(** A pattern that begins with a part without group. *)
Lemma rmatch_skip r1 r2 s c m :
  groupFree r1 = true -> m ∈ rmatch (RSeq r1 r2) s c ->
  exists pre s1, s = pre ++ s1 /\ m ∈ rmatch r2 s1 c.
Proof.
  intros Hg (m1 & H1 & H2)%elem_of_rmatch_seq.
  pose proof (rmatch_groupFree _ _ _ _ Hg H1) as Hc.
  apply rmatch_prefix in H1 as [pre Hpre].
  exists pre, (fst m1). split; [done|]. by rewrite <- Hc.
Qed.

(** A quote, the text of group 1 made of characters of a class, a quote,
    and a rest without group: group 1 holds the text between the
    quotes. *)
Lemma rmatch_quoted kq greedy k kq' r s c m :
  groupFree r = true ->
  m ∈ rmatch (RSeq (RCls kq) (RSeq (RGroup 1 (RPlus greedy (RCls k))) (RSeq (RCls kq') r))) s c ->
  exists q text q' rest,
    s = q :: text ++ q' :: rest
    /\ in_class kq q = true /\ in_class kq' q' = true
    /\ text <> [] /\ Forall (fun y => in_class k y = true) text
    /\ capture 1 (snd m) = Some text.
Proof.
  intros Hg (m1 & (q & -> & Hq & Hc1)%elem_of_rmatch_cls & H)%elem_of_rmatch_seq.
  apply elem_of_rmatch_seq in H as (m2 & (m3 & H3 & ->)%elem_of_rmatch_group & H).
  apply rmatch_plus_cls in H3 as (text & Htext & Hne & Hall & Hc3).
  apply elem_of_rmatch_seq in H as (m4 & (q' & Hq'eq & Hq' & Hc4)%elem_of_rmatch_cls & H).
  simpl in *.
  pose proof (rmatch_groupFree _ _ _ _ Hg H) as Hc5.
  apply rmatch_prefix in H as [pre Hpre].
  exists q, text, q', (pre ++ fst m).
  split.
  { f_equal. etrans; [exact Htext|]. f_equal. etrans; [exact Hq'eq|]. f_equal. exact Hpre. }
  split; [done|]. split; [done|]. split; [done|]. split; [done|].
  etrans; [exact (f_equal (capture 1) Hc5)|].
  etrans; [exact (f_equal (capture 1) Hc4)|].
  simpl. f_equal.
  etrans; [exact (f_equal (fun x => take (length x - length (fst m3)) x) Htext)|].
  simpl.
  assert (length (text ++ fst m3) - length (fst m3) = length text) as Hl
    by (rewrite length_app; lia).
  etrans; [exact (f_equal (fun n => take n (text ++ fst m3)) Hl)|].
  apply take_app_length.
Qed.

Lemma search_Some_inv r s i m :
  search r s i = Some m ->
  exists pre t mm, s = pre ++ t /\ mm ∈ rmatch r t [] /\ m_groups m = snd mm.
Proof.
  revert i. induction s as [|x s IH]; intros i; simpl.
  - destruct (rmatch r [] []) as [|mm l] eqn:E; [done|]. intros [= <-].
    exists [], [], mm. rewrite E. split; [done|]. split; [apply elem_of_cons; by left|done].
  - destruct (rmatch r (x :: s) []) as [|mm l] eqn:E.
    + intros (pre & t & mm & -> & Hmm & Hg)%IH. by exists (x :: pre), t, mm.
    + intros [= <-]. exists [], (x :: s), mm. rewrite E.
      split; [done|]. split; [apply elem_of_cons; by left|done].
Qed.

Lemma regex_exec_Some_inv r s i m :
  regex_exec r s i = Some m ->
  exists pre t mm, s = pre ++ t /\ mm ∈ rmatch r t [] /\ m_groups m = snd mm.
Proof.
  unfold regex_exec. destruct (length s <? i); [done|].
  intros (pre & t & mm & Hs & Hmm & Hg)%search_Some_inv.
  exists (take i s ++ pre), t, mm. split; [|done].
  by rewrite <- app_assoc, <- Hs, take_drop.
Qed.

Lemma exec_loop_inv fuel r s i m :
  m ∈ exec_loop fuel r s i ->
  exists pre t mm, s = pre ++ t /\ mm ∈ rmatch r t [] /\ m_groups m = snd mm.
Proof.
  revert i. induction fuel as [|fuel IH]; intros i; simpl; [by intros ?%elem_of_nil|].
  destruct (regex_exec r s i) as [m0|] eqn:E; [|by intros ?%elem_of_nil].
  intros [->|Hm]%elem_of_cons; [by eapply regex_exec_Some_inv|by eapply IH].
Qed.

Lemma groupFree_RLit (h : string) : groupFree (RLit h) = true.
Proof. unfold RLit. induction (u h) as [|x l IH]; [done|]. simpl. exact IH. Qed.

(** A match of a declaration pattern: the name is the text between two
    quote characters. *)
Lemma declPattern_match (h : string) s c m :
  m ∈ rmatch (declPattern h) s c ->
  exists a q text q' rest,
    s = a ++ q :: text ++ q' :: rest
    /\ in_class quotes3 q = true /\ in_class quotes3 q' = true
    /\ text <> [] /\ Forall (fun y => in_class CAny y = true) text
    /\ capture 1 (snd m) = Some text.
Proof.
  unfold declPattern, RCat. cbn [foldr]. intros H.
  apply rmatch_skip in H as (p1 & s1 & -> & H); [|apply groupFree_RLit].
  apply rmatch_skip in H as (p2 & s2 & -> & H); [|done].
  apply rmatch_skip in H as (p3 & s3 & -> & H); [|done].
  apply rmatch_skip in H as (p4 & s4 & -> & H); [|done].
  apply rmatch_quoted in H as (q & text & q' & rest & -> & H); [|done].
  exists (p1 ++ p2 ++ p3 ++ p4), q, text, q', rest.
  split; [by rewrite <- !app_assoc|done].
Qed.

Lemma stronglySorted_block (v : nat) (l1 l2 : list nat) :
  Forall (fun x => x = v) l1 -> Forall (fun x => v <= x) l2 ->
  StronglySorted le l2 -> StronglySorted le (l1 ++ l2).
Proof.
  intros H1 H2 Hs. induction l1 as [|x l1 IH]; simpl; [done|].
  apply Forall_cons in H1 as [-> H1].
  constructor; [by apply IH|]. apply Forall_app. split; [|done].
  eapply Forall_impl; [exact H1|]. simpl. intros; lia.
Qed.

(** The entries that a loop over the lines pushes carry rising line
    numbers. *)
Lemma flat_map_lines_sorted {A} (f : nat -> list A) (g : A -> nat) (n start : nat) :
  (forall i x, x ∈ f i -> g x = i + 1) ->
  StronglySorted le (map g (flat_map f (seq start n)))
  /\ Forall (fun x => start + 1 <= x) (map g (flat_map f (seq start n))).
Proof.
  intros Hf. revert start. induction n as [|n IH]; intros start; simpl.
  - split; constructor.
  - destruct (IH (S start)) as [Hs Hall]. rewrite map_app.
    assert (Forall (fun x => x = start + 1) (map g (f start))) as Hfirst.
    { apply Forall_forall. intros x (y & -> & Hy)%list_elem_of_fmap. by apply Hf. }
    split.
    + apply (stronglySorted_block (start + 1)); [done| |done].
      eapply Forall_impl; [exact Hall|]. simpl. intros; lia.
    + apply Forall_app. split.
      * eapply Forall_impl; [exact Hfirst|]. simpl. intros; lia.
      * eapply Forall_impl; [exact Hall|]. simpl. intros; lia.
Qed.

(** X4: the declarations come in file order, each with a line number of
    the file; the name of each is not empty, holds no line terminator,
    and stands on the line of the declaration between two quote
    characters (single, double or backquote, not necessarily the same). *)
Theorem extracted_declarations_shape (content file : str) :
  StronglySorted le (map ti_lineNumber (extractTestsFromContent content file))
  /\ forall d, d ∈ extractTestsFromContent content file ->
       1 <= ti_lineNumber d <= length (split NL content)
       /\ ti_testName d <> []
       /\ Forall (fun y => is_line_terminator y = false) (ti_testName d)
       /\ exists a q q' b,
            split NL content !! (ti_lineNumber d - 1)
            = Some (a ++ q :: ti_testName d ++ q' :: b)
            /\ q ∈ [SQUOTE; DQUOTE; BQUOTE] /\ q' ∈ [SQUOTE; DQUOTE; BQUOTE].
Proof.
  split.
  - rewrite extractTestsFromContent_flat_map.
    apply flat_map_lines_sorted. intros i d (p & _ & Hd)%elem_of_flat_map.
    unfold declsOfPattern in Hd. destruct (regex_exec _ _ _); [|by apply elem_of_nil in Hd].
    by apply list_elem_of_singleton in Hd as ->.
  - intros d (i & p & m & Hi & Hp & E & ->)%elem_of_extractTestsFromContent.
    simpl. replace (i + 1 - 1) with i by lia.
    apply regex_exec_Some_inv in E as (pre & t & mm & Hline & Hmm & Hg).
    assert (exists h, fst p = declPattern h) as [h Hh].
    { unfold allPatterns, testPatterns, describePatterns in Hp. simpl in Hp.
      repeat (apply elem_of_cons in Hp as [->|Hp]); [..|by apply elem_of_nil in Hp];
        by eexists. }
    rewrite Hh in Hmm.
    apply declPattern_match in Hmm as (a & q & text & q' & rest & -> & Hq & Hq' & Hne & Hall & Hcap).
    assert (group1 m = text) as Hname by (unfold group1; by rewrite Hg, Hcap).
    rewrite Hname.
    split; [lia|]. split; [done|]. split.
    { eapply Forall_impl; [exact Hall|]. simpl. intros y Hy. by apply negb_true_iff in Hy. }
    exists (pre ++ a), q, q', rest.
    split; [|split; [by apply bool_decide_eq_true in Hq|by apply bool_decide_eq_true in Hq']].
    unfold line_at in Hline. destruct (split NL content !! i) as [l|] eqn:El.
    + simpl in Hline. by rewrite Hline, <- app_assoc.
    + apply lookup_ge_None in El. lia.
Qed.

(** *** The imports of a file *)

Lemma extractImports_flat_map (content : str) :
  extractImports content
  = flat_map (fun i =>
                importsOfLine es6ImportPattern (line_at (split NL content) i) i
                ++ importsOfLine requirePattern (line_at (split NL content) i) i)
             (seq 0 (length (split NL content))).
Proof.
  unfold extractImports. cbv zeta.
  rewrite <- (app_nil_l (flat_map _ _)), <- fold_left_push.
  apply fold_left_ext. intros acc i. by rewrite <- app_assoc.
Qed.

Lemma importPattern_match r s c m :
  r = es6ImportPattern \/ r = requirePattern ->
  m ∈ rmatch r s c ->
  exists a q text q' rest,
    s = a ++ q :: text ++ q' :: rest
    /\ in_class quotes2 q = true /\ in_class quotes2 q' = true
    /\ text <> [] /\ Forall (fun y => in_class notQuotes2 y = true) text
    /\ capture 1 (snd m) = Some text.
Proof.
  intros [->| ->] H.
  - unfold es6ImportPattern, RCat in H. cbn [foldr] in H.
    apply rmatch_skip in H as (p1 & s1 & -> & H); [|apply groupFree_RLit].
    apply rmatch_skip in H as (p2 & s2 & -> & H); [|done].
    apply rmatch_skip in H as (p3 & s3 & -> & H); [|by vm_compute].
    apply rmatch_quoted in H as (q & text & q' & rest & -> & H); [|done].
    exists (p1 ++ p2 ++ p3), q, text, q', rest.
    split; [by rewrite <- !app_assoc|done].
  - unfold requirePattern, RCat in H. cbn [foldr] in H.
    apply rmatch_skip in H as (p1 & s1 & -> & H); [|apply groupFree_RLit].
    apply rmatch_skip in H as (p2 & s2 & -> & H); [|done].
    apply rmatch_skip in H as (p3 & s3 & -> & H); [|done].
    apply rmatch_skip in H as (p4 & s4 & -> & H); [|done].
    apply rmatch_quoted in H as (q & text & q' & rest & -> & H); [|done].
    exists (p1 ++ p2 ++ p3 ++ p4), q, text, q', rest.
    split; [by rewrite <- !app_assoc|done].
Qed.

Lemma importsOfLine_inv r line i imp :
  r = es6ImportPattern \/ r = requirePattern ->
  imp ∈ importsOfLine r line i ->
  im_lineNumber imp = i + 1
  /\ source imp <> []
  /\ Forall (fun y => y <> SQUOTE /\ y <> DQUOTE) (source imp)
  /\ exists a q q' b,
       line = a ++ q :: source imp ++ q' :: b
       /\ q ∈ [SQUOTE; DQUOTE] /\ q' ∈ [SQUOTE; DQUOTE].
Proof.
  intros Hr (m & -> & Hm)%list_elem_of_fmap. simpl.
  apply exec_loop_inv in Hm as (pre & t & mm & -> & Hmm & Hg).
  apply (importPattern_match r) in Hmm
    as (a & q & text & q' & rest & -> & Hq & Hq' & Hne & Hall & Hcap); [|done].
  assert (group1 m = text) as -> by (unfold group1; by rewrite Hg, Hcap).
  split; [done|]. split; [done|]. split.
  - eapply Forall_impl; [exact Hall|]. simpl. intros y Hy.
    apply negb_true_iff, bool_decide_eq_false in Hy.
    split; intros ->; apply Hy.
    + apply elem_of_cons. by left.
    + apply elem_of_cons. right. apply elem_of_cons. by left.
  - exists (pre ++ a), q, q', rest. rewrite <- app_assoc.
    split; [done|]. split; [by apply bool_decide_eq_true in Hq|by apply bool_decide_eq_true in Hq'].
Qed.

(** X5: the imports come in file order, each with a line number of the
    file; the specifier of each is not empty, holds no quote character,
    and stands on its line between two quote characters (single or
    double, not necessarily the same). *)
Theorem extracted_imports_shape (content : str) :
  StronglySorted le (map im_lineNumber (extractImports content))
  /\ forall imp, imp ∈ extractImports content ->
       1 <= im_lineNumber imp <= length (split NL content)
       /\ source imp <> []
       /\ Forall (fun y => y <> SQUOTE /\ y <> DQUOTE) (source imp)
       /\ exists a q q' b,
            split NL content !! (im_lineNumber imp - 1)
            = Some (a ++ q :: source imp ++ q' :: b)
            /\ q ∈ [SQUOTE; DQUOTE] /\ q' ∈ [SQUOTE; DQUOTE].
Proof.
  assert (forall i imp,
            imp ∈ importsOfLine es6ImportPattern (line_at (split NL content) i) i
                  ++ importsOfLine requirePattern (line_at (split NL content) i) i ->
            im_lineNumber imp = i + 1
            /\ source imp <> []
            /\ Forall (fun y => y <> SQUOTE /\ y <> DQUOTE) (source imp)
            /\ exists a q q' b,
                 line_at (split NL content) i = a ++ q :: source imp ++ q' :: b
                 /\ q ∈ [SQUOTE; DQUOTE] /\ q' ∈ [SQUOTE; DQUOTE]) as Hline.
  { intros i imp [H|H]%elem_of_app;
      (apply importsOfLine_inv in H; [exact H|]); [by left|by right]. }
  rewrite extractImports_flat_map. split.
  - apply flat_map_lines_sorted. intros i imp Himp. by apply Hline in Himp as [? _].
  - intros imp (i & [_ Hi]%elem_of_seq & Himp)%elem_of_flat_map.
    apply Hline in Himp as (Hn & Hne & Hall & a & q & q' & b & Hl & Hq & Hq').
    rewrite Hn. replace (i + 1 - 1) with i by lia.
    split; [lia|]. split; [done|]. split; [done|].
    exists a, q, q', b. split; [|done].
    unfold line_at in Hl. destruct (split NL content !! i) as [l|] eqn:El.
    + simpl in Hl. by rewrite Hl.
    + apply lookup_ge_None in El. simpl in Hi. lia.
Qed.

(** *** The listing of changed files *)

Lemma split_join (sep : N) (ls : list str) :
  ls <> [] -> Forall (fun l => sep ∉ l) ls -> split sep (join sep ls) = ls.
Proof.
  induction ls as [|l ls IH]; intros Hne Hall; [done|].
  apply Forall_cons in Hall as [Hl Hall].
  destruct ls as [|l2 ls].
  - simpl. by apply split_notin.
  - change (join sep (l :: l2 :: ls)) with (l ++ sep :: join sep (l2 :: ls)).
    rewrite split_app_sep by done. by rewrite IH.
Qed.

Lemma split_fields (sep : N) (s l : str) :
  l ∈ split sep s -> forall x, x ∈ l -> x ∈ s /\ x <> sep.
Proof.
  revert l. induction s as [|c s IH]; intros l; simpl.
  - intros ->%list_elem_of_singleton x Hx. by apply elem_of_nil in Hx.
  - destruct (N.eqb_spec c sep) as [->|Hne].
    + intros [->|Hl]%elem_of_cons x Hx; [by apply elem_of_nil in Hx|].
      destruct (IH l Hl x Hx). split; [|done]. apply elem_of_cons. by right.
    + destruct (split sep s) as [|l0 ls] eqn:E.
      * intros ->%list_elem_of_singleton x ->%list_elem_of_singleton.
        split; [apply elem_of_cons; by left|done].
      * intros [->|Hl]%elem_of_cons x Hx.
        -- apply elem_of_cons in Hx as [->|Hx].
           ++ split; [apply elem_of_cons; by left|done].
           ++ destruct (IH l0 (proj2 (elem_of_cons _ _ _) (or_introl eq_refl)) x Hx).
              split; [|done]. apply elem_of_cons. by right.
        -- destruct (IH l (proj2 (elem_of_cons _ _ _) (or_intror Hl)) x Hx).
           split; [|done]. apply elem_of_cons. by right.
Qed.

Lemma trimStart_spaces (a b : str) (z : N) :
  Forall (fun x => is_space x = true) a -> is_space z = false ->
  trimStart (a ++ z :: b) = z :: b.
Proof.
  intros Ha Hz. induction a as [|x a IH]; simpl.
  - by rewrite Hz.
  - apply Forall_cons in Ha as [-> Ha]. by apply IH.
Qed.

(** [trim] strips the white space that follows a text which begins and
    ends with other characters. *)
Lemma trim_trailing (c z : N) (w w' t : str) :
  c :: w = w' ++ [z] -> is_space c = false -> is_space z = false ->
  Forall (fun x => is_space x = true) t ->
  trim ((c :: w) ++ t) = c :: w.
Proof.
  intros Hs Hc Hz Ht. unfold trim, trimEnd. simpl. rewrite Hc.
  change (c :: w ++ t) with ((c :: w) ++ t). rewrite Hs at 1.
  rewrite <- app_assoc, !rev_app_distr. simpl. rewrite <- app_assoc. simpl.
  rewrite trimStart_spaces; [|by apply Forall_rev|done].
  change (z :: rev w') with (rev [z] ++ rev w'). rewrite <- rev_app_distr, rev_involutive.
  by rewrite Hs.
Qed.

Lemma parseStatusLine_simple (t : FileChangeType) (p : str) :
  t <> file_renamed -> TAB ∉ p -> p <> [] ->
  parseStatusLine (statusLetter t :: TAB :: p)
  = Some {| cf_path := p; cf_changeType := t |}.
Proof.
  intros Ht Hp Hne. unfold parseStatusLine.
  destruct (trim (statusLetter t :: TAB :: p)) eqn:E.
  { apply trim_nonempty in E; [done|]. by destruct t. }
  clear E. cbv zeta.
  change (statusLetter t :: TAB :: p) with ([statusLetter t] ++ TAB :: p).
  rewrite split_app_sep.
  2:{ intros H%list_elem_of_singleton. by destruct t. }
  rewrite split_notin by done. destruct t; try done; simpl; by destruct p.
Qed.

Lemma nameStatusLine_parse (e : DiffEntry) :
  plainEntry e -> parseStatusLine (nameStatusLine e) = Some (de_file e).
Proof.
  intros ((Hne & Htab & _ & _) & Hs & _ & Ho & _). unfold nameStatusLine.
  destruct e as [[p t] score old]. simpl in *.
  destruct t.
  - by apply (parseStatusLine_simple file_added).
  - by apply (parseStatusLine_simple file_deleted).
  - by apply (parseStatusLine_simple file_modified).
  - by apply (parseStatusLine_renamed score old p).
Qed.

Lemma nameStatusLine_shape (e : DiffEntry) :
  plainEntry e ->
  (NL ∉ nameStatusLine e)
  /\ exists c w w' z, nameStatusLine e = c :: w /\ c :: w = w' ++ [z]
                      /\ is_space c = false /\ is_space z = false.
Proof.
  intros ((Hne & _ & Hnl & Hlast) & _ & Hsn & _ & Hon).
  destruct e as [[p t] score old]. simpl in *.
  destruct (exists_last Hne) as (p' & z & ->).
  rewrite last_last in Hlast.
  unfold nameStatusLine. simpl. split.
  - pose proof Hnl as Hnl'. rewrite not_elem_of_app, not_elem_of_cons in Hnl'.
    destruct Hnl' as (Hp' & Hz' & _).
    destruct t; simpl;
      repeat first [ rewrite not_elem_of_cons | rewrite not_elem_of_app ];
      repeat split; try done; apply not_elem_of_nil.
  - destruct t; simpl.
    + exists 65%N, (TAB :: p' ++ [z]), (65%N :: TAB :: p'), z. by repeat split.
    + exists 68%N, (TAB :: p' ++ [z]), (68%N :: TAB :: p'), z. by repeat split.
    + exists 77%N, (TAB :: p' ++ [z]), (77%N :: TAB :: p'), z. by repeat split.
    + exists 82%N, (score ++ TAB :: old ++ TAB :: p' ++ [z]),
             (82%N :: score ++ TAB :: old ++ TAB :: p'), z.
      split; [done|]. split; [|done]. simpl. f_equal.
      rewrite <- !app_assoc. simpl. f_equal. f_equal. by rewrite <- app_assoc.
Qed.

Lemma nameStatusOutput_join (entries : list DiffEntry) :
  entries <> [] ->
  nameStatusOutput entries = join NL (map nameStatusLine entries) ++ [NL].
Proof.
  induction entries as [|e entries IH]; intros Hne; [done|].
  unfold nameStatusOutput in *. simpl.
  destruct entries as [|e2 entries]; [by rewrite app_nil_r|].
  rewrite IH by done. simpl. by rewrite <- !app_assoc.
Qed.

Lemma join_ends (ls : list str) (l : str) :
  (exists c w, l = c :: w /\ is_space c = false) ->
  Forall (fun l => exists w' z, l = w' ++ [z] /\ is_space z = false) (l :: ls) ->
  exists c w w' z, join NL (l :: ls) = c :: w /\ c :: w = w' ++ [z]
                   /\ is_space c = false /\ is_space z = false.
Proof.
  intros (c & w & -> & Hc) Hall.
  assert (exists w' z, join NL ((c :: w) :: ls) = w' ++ [z] /\ is_space z = false)
    as (w' & z & Hj & Hz).
  { clear Hc. generalize dependent (c :: w). clear c w.
    induction ls as [|l2 ls IH]; intros l Hall.
    - apply Forall_cons in Hall as [(w' & z & -> & Hz) _]. by exists w', z.
    - apply Forall_cons in Hall as [_ Hall].
      destruct (IH l2 Hall) as (w' & z & Hj & Hz).
      exists (l ++ NL :: w'), z. split; [|done].
      change (join NL (l :: l2 :: ls)) with (l ++ NL :: join NL (l2 :: ls)).
      rewrite Hj. by rewrite <- app_assoc. }
  destruct ls as [|l2 ls].
  - exists c, w, w', z. simpl in *. by rewrite <- Hj.
  - exists c, (w ++ NL :: join NL (l2 :: ls)), w', z.
    split; [done|]. split; [|done]. by rewrite <- Hj.
Qed.

(** X6: the listing read back.  For changed files whose paths are not
    empty, hold no tab and no newline and do not end in white space,
    reading the name-status listing of them (a rename with its score and
    old path) gives these files, with their change types, in the order
    of the listing. *)
Theorem getChangedFiles_of_listing (git_diff : str -> str -> option str)
    (baseCommit headCommit : str) (entries : list DiffEntry) :
  Forall plainEntry entries ->
  git_diff baseCommit headCommit = Some (nameStatusOutput entries) ->
  getChangedFiles git_diff baseCommit headCommit = Some (map de_file entries).
Proof.
  intros Hplain Hout. rewrite (getChangedFiles_flat_map _ _ _ _ Hout). f_equal.
  destruct entries as [|e entries]; [done|].
  rewrite nameStatusOutput_join by done.
  assert (Forall (fun l => NL ∉ l) (map nameStatusLine (e :: entries))) as Hnl.
  { apply Forall_fmap. eapply Forall_impl; [exact Hplain|].
    intros e' He'. by apply nameStatusLine_shape in He' as [? _]. }
  destruct (join_ends (map nameStatusLine entries) (nameStatusLine e))
    as (c & w & w' & z & Hj & Hs & Hc & Hz).
  { apply Forall_cons in Hplain as [He _].
    apply nameStatusLine_shape in He as (_ & c & w & _ & _ & -> & _ & Hc & _).
    by exists c, w. }
  { change (nameStatusLine e :: map nameStatusLine entries)
      with (map nameStatusLine (e :: entries)).
    apply Forall_fmap. eapply Forall_impl; [exact Hplain|].
    intros e' He'.
    apply nameStatusLine_shape in He' as (_ & c0 & w0 & w0' & z0 & H1 & H2 & _ & Hz0).
    exists w0', z0. split; [congruence|done]. }
  change (nameStatusLine e :: map nameStatusLine entries)
    with (map nameStatusLine (e :: entries)) in Hj.
  rewrite Hj, (trim_trailing c z w w' [NL]); [|done|done|done|by repeat constructor].
  rewrite <- Hj, split_join by done.
  clear - Hplain. induction Hplain as [|e' l He' _ IH]; simpl; [done|].
  by rewrite nameStatusLine_parse, IH.
Qed.

Lemma getChangedFiles_of_listing_witness :
  getChangedFiles (Fake.diff exampleRepo) (u "base") (u "head")
  = Some (map de_file exampleEntries).
Proof.
  apply (getChangedFiles_of_listing (Fake.diff exampleRepo) (u "base") (u "head")
           exampleEntries).
  - repeat constructor; try discriminate;
      try (apply (bool_decide_unpack _); vm_compute; exact I).
  - vm_compute. reflexivity.
Defined.

Lemma parseStatusLine_inv (line : str) (f : ChangedFile) :
  parseStatusLine line = Some f ->
  exists c, statusChar (split TAB line) = Some c
            /\ statusOf c = Some (cf_changeType f)
            /\ split TAB line !! pathField (cf_changeType f) = Some (cf_path f)
            /\ cf_path f <> [].
Proof.
  unfold parseStatusLine. destruct (trim line); [done|]. cbv zeta.
  destruct (statusChar (split TAB line)) as [c|]; [|done]. simpl.
  destruct (statusOf c) as [t|] eqn:Et; [|done].
  destruct t; simpl.
  - destruct (split TAB line !! 1) as [[|x p]|] eqn:E; try done.
    intros [= <-]. by exists c.
  - destruct (split TAB line !! 1) as [[|x p]|] eqn:E; try done.
    intros [= <-]. by exists c.
  - destruct (split TAB line !! 1) as [[|x p]|] eqn:E; try done.
    intros [= <-]. by exists c.
  - destruct (split TAB line !! 2) as [[|x p]|] eqn:E; try done.
    intros [= <-]. by exists c.
Qed.

Lemma length_flat_map_option {A B} (f : A -> option B) (l : list A) :
  length (flat_map (fun x => option_list (f x)) l) <= length l.
Proof.
  induction l as [|x l IH]; simpl; [done|].
  rewrite length_app. destruct (f x); simpl; lia.
Qed.

(** X7: what the list of changed files can hold.  It has at most one
    entry per line of the trimmed listing; the path of an entry is not
    empty and holds no tab and no newline; and each entry comes from a
    line whose first character is A, D, M or R, the change type being
    the one of that letter and the path the second field of the line,
    the third for R.  Lines of another status add nothing. *)
Theorem getChangedFiles_entries (git_diff : str -> str -> option str)
    (baseCommit headCommit : str) (files : list ChangedFile) :
  getChangedFiles git_diff baseCommit headCommit = Some files ->
  exists output,
    git_diff baseCommit headCommit = Some output
    /\ length files <= length (split NL (trim output))
    /\ forall f, f ∈ files ->
         cf_path f <> [] /\ (TAB ∉ cf_path f) /\ (NL ∉ cf_path f)
         /\ exists line c,
              line ∈ split NL (trim output)
              /\ statusChar (split TAB line) = Some c
              /\ statusOf c = Some (cf_changeType f)
              /\ split TAB line !! pathField (cf_changeType f) = Some (cf_path f).
Proof.
  destruct (git_diff baseCommit headCommit) as [output|] eqn:Hout.
  2:{ unfold getChangedFiles. by rewrite Hout. }
  rewrite (getChangedFiles_flat_map _ _ _ _ Hout). intros [= <-].
  exists output. split; [done|]. split; [apply length_flat_map_option|].
  intros f (line & Hline & Hf)%elem_of_flat_map.
  destruct (parseStatusLine line) as [f'|] eqn:E; [|by apply elem_of_nil in Hf].
  apply list_elem_of_singleton in Hf as ->.
  apply parseStatusLine_inv in E as (c & Hc & Ht & Hp & Hne).
  assert (cf_path f' ∈ split TAB line) as Hfield by (by eapply list_elem_of_lookup_2).
  split; [done|]. split; [|split].
  - intros Hx. by destruct (split_fields _ _ _ Hfield _ Hx).
  - intros Hx. destruct (split_fields _ _ _ Hfield _ Hx) as [Hin _].
    by destruct (split_fields _ _ _ Hline _ Hin).
  - by exists line, c.
Qed.

Lemma getChangedFiles_entries_witness :
  exists output,
    Fake.diff exampleRepo (u "base") (u "head") = Some output
    /\ length (map de_file exampleEntries) <= length (split NL (trim output)).
Proof.
  destruct (getChangedFiles_entries (Fake.diff exampleRepo) (u "base") (u "head")
              (map de_file exampleEntries))
    as (output & Hout & Hlen & _).
  - vm_compute. reflexivity.
  - by exists output.
Defined.

(** *** The lists of a run *)

(** X9: where indirect records come from.  The file of an indirect
    record is a path that the listing of the head tree holds, classified
    as a test file, with readable head content, and the record carries
    the name, line and kind of a declaration of that content.  When
    listing the tree fails the indirect list is empty, without error. *)
Theorem indirect_files_are_listed (git_show : str -> str -> option str)
    (git_cat_file_e : str -> str -> bool) (git_ls_tree : str -> option str)
    (baseCommit headCommit : str) (files : list ChangedFile) :
  (forall r,
     r ∈ indirectlyImpactedTests
           (analyzeFiles git_show git_cat_file_e git_ls_tree baseCommit headCommit files) ->
     isPlaywrightTestFile (filePath r) = true
     /\ (exists output, git_ls_tree headCommit = Some output
                        /\ filePath r ∈ split NL (trim output))
     /\ exists content d,
          git_show headCommit (filePath r) = Some content
          /\ d ∈ extractTestsFromContent content (filePath r)
          /\ testName r = ti_testName d /\ lineNumber r = ti_lineNumber d
          /\ changeKind r = ti_kind d)
  /\ (git_ls_tree headCommit = None ->
      indirectlyImpactedTests
        (analyzeFiles git_show git_cat_file_e git_ls_tree baseCommit headCommit files) = []).
Proof.
  assert (forall r,
     r ∈ indirectlyImpactedTests
           (analyzeFiles git_show git_cat_file_e git_ls_tree baseCommit headCommit files) ->
     isPlaywrightTestFile (filePath r) = true
     /\ (exists output, git_ls_tree headCommit = Some output
                        /\ filePath r ∈ split NL (trim output))
     /\ exists content d,
          git_show headCommit (filePath r) = Some content
          /\ d ∈ extractTestsFromContent content (filePath r)
          /\ testName r = ti_testName d /\ lineNumber r = ti_lineNumber d
          /\ changeKind r = ti_kind d) as Hrec.
  { intros r Hr%indirect_of_analyzeFiles.
    apply analyzeIndirectImpact_inv in Hr as [[Hall _]%elem_of_unchangedTestFiles Hr].
    unfold getAllTestFiles in Hall.
    destruct (git_ls_tree headCommit) as [output|]; [|by apply elem_of_nil in Hall].
    apply list_elem_of_filter in Hall as [Htest Hin].
    split; [done|]. split; [by exists output|].
    apply indirectOfFile_inv in Hr
      as (content & _ & _ & _ & p & d & Hc & _ & _ & _ & _ & _ & _ & Hd & ->).
    by exists content, d. }
  split; [exact Hrec|].
  intros Hls. apply elem_of_nil_inv. intros r Hr.
  apply Hrec in Hr as (_ & (output & Hout & _) & _). congruence.
Qed.

(** X10: the direct list is the concatenation, in the order of the
    changed files, of the testChanges of the entries; an entry has
    testChanges exactly when it is flagged as a test file, and every
    record in them is about the file of the entry. *)
Theorem direct_list_by_file (git_show : str -> str -> option str)
    (git_cat_file_e : str -> str -> bool) (git_ls_tree : str -> option str)
    (baseCommit headCommit : str) (files : list ChangedFile) :
  let res := analyzeFiles git_show git_cat_file_e git_ls_tree baseCommit headCommit files in
  directlyImpactedTests res
  = flat_map (fun fc => default [] (testChanges fc)) (changedFiles res)
  /\ map fc_filePath (changedFiles res) = map cf_path files
  /\ forall fc, fc ∈ changedFiles res ->
       (isTestFile fc = true <-> testChanges fc <> None)
       /\ forall l r, testChanges fc = Some l -> r ∈ l ->
            filePath r = fc_filePath fc /\ impactType r = direct.
Proof.
  intros res. unfold res, analyzeFiles. cbn [directlyImpactedTests changedFiles].
  rewrite classify_spec. cbn [p_directlyImpactedTests p_fileChanges].
  split; [|split].
  - induction files as [|f files IH]; simpl; [done|]. rewrite IH. f_equal.
    unfold directOf. by destruct (isPlaywrightTestFile (cf_path f)).
  - rewrite map_map. by apply map_ext.
  - intros fc (f & -> & _)%list_elem_of_fmap. simpl.
    destruct (isPlaywrightTestFile (cf_path f)); split; try done.
    intros l r [= <-] Hr%analyzeTestFileChanges_records. tauto.
Qed.

(** X11: an indirectly impacted file is reported whole.  When a run has
    an indirect record for a test file, it has one for every declaration
    of the head content of that file, with the same impactedBy. *)
Theorem indirect_file_is_whole (git_show : str -> str -> option str)
    (git_cat_file_e : str -> str -> bool) (git_ls_tree : str -> option str)
    (baseCommit headCommit : str) (files : list ChangedFile) (r : TestChange) :
  r ∈ indirectlyImpactedTests
        (analyzeFiles git_show git_cat_file_e git_ls_tree baseCommit headCommit files) ->
  exists content p,
    git_show headCommit (filePath r) = Some content
    /\ impactedBy r = Some p
    /\ forall d, d ∈ extractTestsFromContent content (filePath r) ->
         indirectChange (filePath r) p d
         ∈ indirectlyImpactedTests
             (analyzeFiles git_show git_cat_file_e git_ls_tree baseCommit headCommit files).
Proof.
  intros Hr. unfold analyzeFiles in *. cbn [indirectlyImpactedTests] in *.
  rewrite classify_spec in *. cbn [p_changedNonTestFiles p_changedTestFiles] in *.
  destruct (filter (fun f => ~ isTest f) files) as [|nf nfs] eqn:Enon;
    [by apply elem_of_nil in Hr|].
  rewrite <- Enon in *. clear Enon nf nfs.
  pose proof Hr as Hr'. apply analyzeIndirectImpact_inv in Hr' as [Hf Hfile].
  apply indirectOfFile_inv in Hfile
    as (content & _ & _ & _ & p & d0 & Hc & _ & _ & _ & _ & _ & Heq & _ & Hrd).
  exists content, p. split; [done|]. split; [by rewrite Hrd|].
  intros d Hd. rewrite analyzeIndirectImpact_flat_map. apply elem_of_flat_map.
  exists (filePath r). split; [done|]. rewrite Heq.
  apply list_elem_of_fmap. by exists d.
Qed.

Lemma indirect_file_is_whole_witness :
  let r := {| type := modified; testName := u "one"; filePath := u "tests/a.spec.ts";
              lineNumber := 4; changeKind := test; impactType := indirect;
              impactedBy := Some (u "utils/helpers.ts") |} in
  exists content p,
    Fake.show exampleRepo (u "head") (filePath r) = Some content
    /\ impactedBy r = Some p.
Proof.
  intros r.
  destruct (indirect_file_is_whole (Fake.show exampleRepo) (Fake.cat_file_e exampleRepo)
              (Fake.ls_tree exampleRepo) (u "base") (u "head")
              (map de_file exampleEntries) r) as (content & p & Hc & Hp & _).
  - apply (bool_decide_unpack _). vm_compute. exact I.
  - by exists content, p.
Defined.

(** *** Escaping test names *)

Lemma search_cls_spec (k : cclass) (rest : str) (i : nat) :
  match search (RCls k) rest i with
  | None => Forall (fun c => in_class k c = false) rest
  | Some m =>
      exists pre c post,
        rest = pre ++ c :: post
        /\ Forall (fun c => in_class k c = false) pre /\ in_class k c = true
        /\ m_index m = i + length pre /\ m_end m = S (i + length pre)
  end.
Proof.
  revert i. induction rest as [|x rest IH]; intros i; simpl; [done|].
  destruct (in_class k x) eqn:E; simpl.
  - exists [], x, rest. simpl. repeat split; try done; lia.
  - specialize (IH (S i)). destruct (search (RCls k) rest (S i)) as [m|].
    + destruct IH as (pre & c & post & -> & Hpre & Hc & Hi & He).
      exists (x :: pre), c, post. simpl. repeat split; try done; try lia.
      by constructor.
    + by constructor.
Qed.

Lemma flat_map_unmatched (k : cclass) (replacement : str -> str) (pre : str) :
  Forall (fun c => in_class k c = false) pre ->
  flat_map (fun c => if in_class k c then replacement [c] else [c]) pre = pre.
Proof.
  induction 1 as [|x pre Hx _ IH]; simpl; [done|]. by rewrite Hx, IH.
Qed.

(** Replacing the characters of a class one by one. *)
Lemma replace_loop_cls (k : cclass) (replacement : str -> str) (fuel : nat) (rest : str) :
  length rest < fuel ->
  replace_loop fuel (RCls k) replacement rest
  = flat_map (fun c => if in_class k c then replacement [c] else [c]) rest.
Proof.
  revert rest. induction fuel as [|fuel IH]; intros rest Hlen; [lia|]. simpl.
  pose proof (search_cls_spec k rest 0) as Hs.
  destruct (search (RCls k) rest 0) as [m|].
  - destruct Hs as (pre & c & post & -> & Hpre & Hc & Hi & He).
    simpl in Hi, He. rewrite Hi, He.
    rewrite take_app_length.
    replace (S (length pre) - length pre) with 1 by lia.
    rewrite drop_app_length. simpl take. rewrite take_0.
    assert (drop (S (length pre)) (pre ++ c :: post) = post) as ->.
    { clear. induction pre as [|y pre IH]; simpl; [by rewrite drop_0|exact IH]. }
    rewrite flat_map_app. simpl. rewrite Hc.
    rewrite flat_map_unmatched by done.
    rewrite IH; [done|].
    rewrite length_app in Hlen. simpl in Hlen. lia.
  - by rewrite flat_map_unmatched.
Qed.

Lemma escapeRegex_chars (s : str) : escapeRegex s = flat_map escapeChar s.
Proof.
  unfold escapeRegex, replaceAll. rewrite replace_loop_cls by lia. done.
Qed.

Lemma unescape_escape_chars (s : str) : unescapeRegex (flat_map escapeChar s) = s.
Proof.
  induction s as [|c s IH]; simpl; [done|].
  unfold escapeChar at 1. case_bool_decide as Hc; simpl.
  - by rewrite IH.
  - destruct (N.eqb_spec c BACKSLASH) as [->|_].
    + destruct Hc. apply (bool_decide_unpack _). vm_compute. exact I.
    + by rewrite IH.
Qed.

(** X15: escaping is character by character: each of the fourteen
    special characters gets one backslash before it and every other
    character stays; so the name is read back from its escaped form by
    dropping the backslashes, two names with the same escaped form are
    equal, and the escaped form is at most twice as long. *)
Theorem escapeRegex_round_trip :
  (forall s, escapeRegex s = flat_map escapeChar s)
  /\ (forall s, unescapeRegex (escapeRegex s) = s)
  /\ (forall a b, escapeRegex a = escapeRegex b -> a = b)
  /\ (forall s, length s <= length (escapeRegex s) <= 2 * length s).
Proof.
  split; [exact escapeRegex_chars|]. split; [|split].
  - intros s. rewrite escapeRegex_chars. apply unescape_escape_chars.
  - intros a b H. apply (f_equal unescapeRegex) in H.
    by rewrite !escapeRegex_chars, !unescape_escape_chars in H.
  - intros s. rewrite escapeRegex_chars. induction s as [|c s IH]; simpl; [lia|].
    rewrite length_app. unfold escapeChar at 1 3. case_bool_decide; simpl; lia.
Qed.

(** *** The runnable output *)

Lemma impactedTests_app (result : ImpactAnalysisResult) :
  impactedTests (generateRunnableOutput result)
  = map runnableOfDirect (directlyImpactedTests result)
    ++ map runnableOfIndirect (indirectlyImpactedTests result).
Proof.
  unfold generateRunnableOutput. cbn [impactedTests].
  rewrite !fold_left_push, !flat_map_singleton_map. done.
Qed.

Lemma setInsert_fold (l acc : list str) :
  NoDup acc ->
  NoDup (fold_left setInsert l acc)
  /\ forall x, x ∈ fold_left setInsert l acc <-> x ∈ acc \/ x ∈ l.
Proof.
  revert acc. induction l as [|y l IH]; intros acc Hnd; simpl.
  - split; [done|]. intros x. rewrite elem_of_nil. tauto.
  - assert (NoDup (setInsert acc y)) as Hnd'.
    { unfold setInsert. case_bool_decide; [done|].
      apply NoDup_app. split; [done|]. split; [|apply NoDup_singleton].
      by intros x Hx ->%list_elem_of_singleton. }
    destruct (IH _ Hnd') as [H1 H2]. split; [done|].
    intros x. rewrite H2, elem_of_cons. unfold setInsert.
    case_bool_decide as Hy.
    + split; [tauto|]. intros [?|[->|?]]; tauto.
    + rewrite elem_of_app, list_elem_of_singleton. tauto.
Qed.

Lemma uniqueInOrder_spec (l : list str) :
  NoDup (uniqueInOrder l) /\ forall x, x ∈ uniqueInOrder l <-> x ∈ l.
Proof.
  destruct (setInsert_fold l [] (NoDup_nil_2)) as [H1 H2]. split; [done|].
  intros x. unfold uniqueInOrder. rewrite H2, elem_of_nil. tauto.
Qed.

Lemma fileList_spec (result : ImpactAnalysisResult) :
  NoDup (fileList (generateRunnableOutput result))
  /\ forall f, f ∈ fileList (generateRunnableOutput result) <->
       exists r, r ∈ allRecords result /\ type r <> removed /\ filePath r = f.
Proof.
  pose proof (impactedTests_app result) as Himp.
  unfold generateRunnableOutput in *. cbn [fileList impactedTests] in *. rewrite Himp.
  destruct (uniqueInOrder_spec
              (map rt_filePath
                 (filter (fun t => rt_impactType t <> removed)
                    (map runnableOfDirect (directlyImpactedTests result)
                     ++ map runnableOfIndirect (indirectlyImpactedTests result)))))
    as [Hnd Hin].
  split; [exact Hnd|]. intros f. rewrite Hin. unfold allRecords.
  rewrite list_elem_of_fmap. split.
  - intros (t & -> & [Ht Hmem]%list_elem_of_filter).
    apply elem_of_app in Hmem as [(r & -> & Hr)%list_elem_of_fmap|(r & -> & Hr)%list_elem_of_fmap];
      exists r; (split; [apply elem_of_app; tauto|done]).
  - intros (r & [Hr|Hr]%elem_of_app & Ht & <-).
    + exists (runnableOfDirect r). split; [done|]. apply list_elem_of_filter.
      split; [done|]. apply elem_of_app. left. apply list_elem_of_fmap. by exists r.
    + exists (runnableOfIndirect r). split; [done|]. apply list_elem_of_filter.
      split; [done|]. apply elem_of_app. right. apply list_elem_of_fmap. by exists r.
Qed.

(** X12: the file list of the runnable output holds each path once, and
    holds a path exactly when some record of the result, direct or
    indirect, that is not Removed is about it: a file with Removed
    records only is never passed to the test runner. *)
Theorem runnable_fileList (result : ImpactAnalysisResult) :
  NoDup (fileList (generateRunnableOutput result))
  /\ (forall f, f ∈ fileList (generateRunnableOutput result) <->
        exists r, r ∈ allRecords result /\ type r <> removed /\ filePath r = f)
  /\ (fileList (generateRunnableOutput result) = [] <->
      forall r, r ∈ allRecords result -> type r = removed).
Proof.
  destruct (fileList_spec result) as [Hnd Hin].
  split; [done|]. split; [done|]. split.
  - intros Hnil r Hr. destruct (decide (type r = removed)) as [|Hne]; [done|].
    assert (filePath r ∈ fileList (generateRunnableOutput result)) as H
      by (apply Hin; by exists r).
    rewrite Hnil in H. by apply elem_of_nil in H.
  - intros Hall. apply elem_of_nil_inv. intros f (r & Hr & Ht & _)%Hin.
    by apply Hall in Hr.
Qed.

Lemma withImpactType_partition (l : list RunnableTest) :
  length (withImpactType added l) + length (withImpactType modified l)
  + length (withImpactType removed l) = length l.
Proof.
  unfold withImpactType. induction l as [|t l IH]; [done|].
  rewrite !filter_cons. destruct (rt_impactType t) eqn:E;
    repeat case_decide; try done; simpl; lia.
Qed.

Lemma withImpactType_map (ty : ChangeType) (f : TestChange -> RunnableTest)
    (l : list TestChange) :
  (forall r, rt_impactType (f r) = type r) ->
  length (withImpactType ty (map f l)) = length (filter (fun r => type r = ty) l).
Proof.
  intros Hf. unfold withImpactType. induction l as [|r l IH]; [done|].
  simpl. rewrite !filter_cons, Hf.
  destruct (decide (type r = ty)); simpl; by rewrite IH.
Qed.

(** X13: the counters of the runnable output.  The total is the number
    of direct plus indirect records, and the added, modified and removed
    counters add up to it.  For the result of a run the added and
    removed counters are those of the analysis summary, while the
    modified counter is testsModified plus testsIndirectlyImpacted: here
    the indirect records count as modified. *)
Theorem runnable_summary (git_show : str -> str -> option str)
    (git_cat_file_e : str -> str -> bool) (git_ls_tree : str -> option str)
    (baseCommit headCommit : str) (files : list ChangedFile) :
  (forall result,
     let s := ro_summary (generateRunnableOutput result) in
     totalImpactedTests s = directlyImpacted s + indirectlyImpacted s
     /\ rs_testsAdded s + rs_testsModified s + rs_testsRemoved s = totalImpactedTests s)
  /\ (let res := analyzeFiles git_show git_cat_file_e git_ls_tree
                   baseCommit headCommit files in
      let s := ro_summary (generateRunnableOutput res) in
      rs_testsAdded s = testsAdded (summary res)
      /\ rs_testsRemoved s = testsRemoved (summary res)
      /\ rs_testsModified s
         = testsModified (summary res) + testsIndirectlyImpacted (summary res)).
Proof.
  assert (forall result ty,
            length (withImpactType ty (impactedTests (generateRunnableOutput result)))
            = length (filter (fun r => type r = ty) (directlyImpactedTests result))
              + length (filter (fun r => type r = ty) (indirectlyImpactedTests result)))
    as Hcount.
  { intros result ty. rewrite impactedTests_app.
    replace (withImpactType ty (map runnableOfDirect (directlyImpactedTests result)
                                ++ map runnableOfIndirect (indirectlyImpactedTests result)))
      with (withImpactType ty (map runnableOfDirect (directlyImpactedTests result))
            ++ withImpactType ty (map runnableOfIndirect (indirectlyImpactedTests result)))
      by (symmetry; apply filter_app).
    rewrite length_app.
    by rewrite (withImpactType_map ty runnableOfDirect),
               (withImpactType_map ty runnableOfIndirect). }
  split.
  - intros result s. split.
    + unfold s. change (totalImpactedTests (ro_summary (generateRunnableOutput result)))
        with (length (impactedTests (generateRunnableOutput result))).
      rewrite impactedTests_app, length_app, !length_map. done.
    + apply (withImpactType_partition (impactedTests (generateRunnableOutput result))).
  - intros res s.
    assert (forall ty, ty <> modified ->
              filter (fun r => type r = ty) (indirectlyImpactedTests res) = []) as Hnone.
    { intros ty Hty. apply filter_none. intros r Hr%indirect_records_of_run. 
      destruct Hr as [Ht _]. congruence. }
    assert (filter (fun r => type r = modified) (indirectlyImpactedTests res)
            = indirectlyImpactedTests res) as Hall.
    { apply filter_all. intros r Hr%indirect_records_of_run. tauto. }
    unfold s.
    change (rs_testsAdded (ro_summary (generateRunnableOutput res)))
      with (length (withImpactType added (impactedTests (generateRunnableOutput res)))).
    change (rs_testsRemoved (ro_summary (generateRunnableOutput res)))
      with (length (withImpactType removed (impactedTests (generateRunnableOutput res)))).
    change (rs_testsModified (ro_summary (generateRunnableOutput res)))
      with (length (withImpactType modified (impactedTests (generateRunnableOutput res)))).
    rewrite !Hcount, Hall, !Hnone by done. simpl. rewrite !Nat.add_0_r. done.
Qed.

Lemma extractTestsFromContent_nil (file : str) : extractTestsFromContent [] file = [].
Proof. by vm_compute. Qed.

Lemma testsOf_inv (content : option str) (file : str) (d : TestInfo) :
  d ∈ testsOf content file ->
  exists c, content = Some c /\ c <> [] /\ d ∈ extractTestsFromContent c file.
Proof.
  destruct content as [[|x c]|]; simpl; try by intros ?%elem_of_nil.
  intros Hd. by exists (x :: c).
Qed.

(** X14: every file of the runnable file list can be read at the head.
    For the result of a run, each path in the file list has content at
    the head revision, and that content is not empty. *)
Theorem runnable_files_exist_at_head (git_show : str -> str -> option str)
    (git_cat_file_e : str -> str -> bool) (git_ls_tree : str -> option str)
    (baseCommit headCommit : str) (files : list ChangedFile) (f : str) :
  f ∈ fileList (generateRunnableOutput
                  (analyzeFiles git_show git_cat_file_e git_ls_tree
                     baseCommit headCommit files)) ->
  exists content, git_show headCommit f = Some content /\ content <> [].
Proof.
  intros (r & Hr & Ht & <-)%fileList_spec.
  apply elem_of_app in Hr as [Hr|Hr].
  - unfold analyzeFiles in Hr. cbn [directlyImpactedTests] in Hr.
    rewrite classify_spec in Hr. cbn [p_directlyImpactedTests] in Hr.
    apply elem_of_flat_map in Hr as (cf & _ & Hr). unfold directOf in Hr.
    destruct (isPlaywrightTestFile (cf_path cf)); [|by apply elem_of_nil in Hr].
    pose proof (analyzeTestFileChanges_records _ _ _ _ _ Hr) as (Hpath & _).
    unfold analyzeTestFileChanges in Hr.
    rewrite diffTests_flat_map in Hr. apply elem_of_app in Hr as [Hr|Hr].
    + apply elem_of_flat_map in Hr as (h & Hh & _).
      apply testsOf_inv in Hh as (c & Hc & Hne & _). rewrite Hpath. by exists c.
    + apply elem_of_flat_map in Hr as (b & _ & Hr).
      apply baseRecords_direct in Hr. tauto.
  - apply indirect_of_analyzeFiles, analyzeIndirectImpact_inv in Hr as [_ Hr].
    apply indirectOfFile_inv in Hr
      as (content & _ & _ & _ & p & d & Hc & _ & _ & _ & _ & _ & _ & Hd & _).
    exists content. split; [done|]. intros ->.
    rewrite extractTestsFromContent_nil in Hd. by apply elem_of_nil in Hd.
Qed.

Lemma runnable_files_exist_at_head_witness :
  exists content,
    Fake.show exampleRepo (u "head") (u "tests/new.spec.ts") = Some content
    /\ content <> [].
Proof.
  apply (runnable_files_exist_at_head (Fake.show exampleRepo) (Fake.cat_file_e exampleRepo)
           (Fake.ls_tree exampleRepo) (u "base") (u "head") (map de_file exampleEntries)).
  apply (bool_decide_unpack _). vm_compute. exact I.
Defined.

(** *** Grouping by file *)

Lemma groupStep_fold_None (tests : list TestChange) : fold_left groupStep tests None = None.
Proof. induction tests as [|t tests IH]; [done|exact IH]. Qed.

Lemma groupStep_fold_throws (tests : list TestChange) (g : gmap str (list TestChange)) :
  (forall k, k ∈ objectPrototypeKeys -> g !! k = None) ->
  Exists (fun t => filePath t ∈ objectPrototypeKeys) tests ->
  fold_left groupStep tests (Some g) = None.
Proof.
  revert g. induction tests as [|t tests IH]; intros g Hg Hex; [by inversion Hex|].
  simpl. destruct (decide (filePath t ∈ objectPrototypeKeys)) as [Hin|Hnot].
  - rewrite (Hg _ Hin), bool_decide_eq_true_2 by done. apply groupStep_fold_None.
  - apply Exists_cons in Hex as [?|Hex]; [done|].
    destruct (g !! filePath t) as [l|] eqn:E.
    + apply IH; [|done]. intros k Hk. rewrite lookup_insert_ne; [by apply Hg|].
      intros Heq. by rewrite Heq in Hnot.
    + rewrite bool_decide_eq_false_2 by done.
      apply IH; [|done]. intros k Hk. rewrite lookup_insert_ne; [by apply Hg|].
      intros Heq. by rewrite Heq in Hnot.
Qed.

Lemma groupStep_fold_groups (tests : list TestChange) (g : gmap str (list TestChange)) :
  Forall (fun t => filePath t ∉ objectPrototypeKeys) tests ->
  exists g',
    fold_left groupStep tests (Some g) = Some g'
    /\ forall k, g' !! k = match recordsOf k tests with
                           | [] => g !! k
                           | l => Some (default [] (g !! k) ++ l)
                           end.
Proof.
  revert g. induction tests as [|t tests IH]; intros g Hall.
  - exists g. split; [done|]. done.
  - apply Forall_cons in Hall as [Ht Hall]. cbn [fold_left].
    assert (groupStep (Some g) t
            = Some (<[filePath t := default [] (g !! filePath t) ++ [t]]> g)) as ->.
    { simpl. destruct (g !! filePath t); [done|]. by rewrite bool_decide_eq_false_2. }
    destruct (IH (<[filePath t := default [] (g !! filePath t) ++ [t]]> g) Hall)
      as (g' & Hfold & Hg').
    exists g'. split; [done|]. intros k. rewrite Hg'. unfold recordsOf.
    rewrite filter_cons. destruct (decide (filePath t = k)) as [<-|Hne].
    + rewrite lookup_insert_eq. simpl.
      destruct (filter _ tests); simpl; [done|]. by rewrite <- app_assoc.
    + by rewrite lookup_insert_ne.
Qed.

(** X16: grouping by file.  The grouping fails (with a TypeError) exactly
    when some record is about a path that is a property name of
    [Object.prototype]; otherwise the group of a path holds the records
    about that path, all of them and in the order of the list, and a
    path without record has no group. *)
Theorem groupTestsByFile_groups (tests : list TestChange) :
  (groupTestsByFile tests = None <->
   Exists (fun t => filePath t ∈ objectPrototypeKeys) tests)
  /\ forall g, groupTestsByFile tests = Some g ->
       forall k, g !! k = match recordsOf k tests with
                          | [] => None
                          | l => Some l
                          end.
Proof.
  unfold groupTestsByFile.
  destruct (decide (Exists (fun t => filePath t ∈ objectPrototypeKeys) tests)) as [Hex|Hno].
  - rewrite groupStep_fold_throws; [|done|done]. split; [done|]. done.
  - apply not_Exists_Forall in Hno; [|intros t; apply _].
    destruct (groupStep_fold_groups tests ∅ Hno) as (g' & Hfold & Hg').
    rewrite Hfold. split.
    + split; [done|]. intros Hex. apply Exists_exists in Hex as (t & Ht & Hk).
      rewrite Forall_forall in Hno. by destruct (Hno t Ht).
    + intros g [= <-] k. rewrite Hg', lookup_empty. by destruct (recordsOf k tests).
Qed.

(** X17: the direct list of a run can always be grouped: its records are
    about changed test files, and no property name of [Object.prototype]
    is classified as a test file. *)
Theorem groupTestsByFile_of_run (git_show : str -> str -> option str)
    (git_cat_file_e : str -> str -> bool) (git_ls_tree : str -> option str)
    (baseCommit headCommit : str) (files : list ChangedFile) :
  exists g,
    groupTestsByFile
      (directlyImpactedTests
         (analyzeFiles git_show git_cat_file_e git_ls_tree baseCommit headCommit files))
    = Some g
    /\ forall k l, g !! k = Some l ->
         l <> [] /\ exists f, f ∈ files /\ isTest f /\ cf_path f = k.
Proof.
  set (direct := directlyImpactedTests _).
  assert (forall r, r ∈ direct -> exists f, f ∈ files /\ isTest f /\ filePath r = cf_path f)
    as Hfiles.
  { intros r Hr. unfold direct, analyzeFiles in Hr. cbn [directlyImpactedTests] in Hr.
    rewrite classify_spec in Hr. cbn [p_directlyImpactedTests] in Hr.
    by apply directOf_records in Hr as (_ & _ & Hf). }
  assert (Forall (fun t => filePath t ∉ objectPrototypeKeys) direct) as Hall.
  { apply Forall_forall. intros r Hr Hk.
    destruct (Hfiles r Hr) as (f & _ & Ht & Hp). unfold isTest in Ht. rewrite <- Hp in Ht.
    assert (Forall (fun k => isPlaywrightTestFile k = false) objectPrototypeKeys) as Hproto
      by (repeat constructor).
    rewrite Forall_forall in Hproto. apply Hproto in Hk. congruence. }
  destruct (groupStep_fold_groups direct ∅ Hall) as (g & Hfold & Hg).
  exists g. split; [exact Hfold|].
  intros k l. rewrite Hg, lookup_empty.
  destruct (recordsOf k direct) as [|r rs] eqn:E; [done|].
  intros [= <-]. split; [done|].
  assert (r ∈ recordsOf k direct) as Hr by (rewrite E; apply elem_of_cons; by left).
  apply list_elem_of_filter in Hr as [Hk Hr].
  destruct (Hfiles r Hr) as (f & Hf & Ht & Hp). exists f. split; [done|]. split; [done|].
  congruence.
Qed.

(** *** The line limit of a body *)

Lemma split_lines_no_sep (sep : N) (s : str) : Forall (fun l => sep ∉ l) (split sep s).
Proof.
  apply Forall_forall. intros l Hl Hx. by destruct (split_fields _ _ _ Hl _ Hx).
Qed.

(** X8: the limit of body capture as the loop enforces it: the body of
    an extracted declaration has at least one and at most 501 lines, and
    501 is reached. *)
Theorem extracted_body_line_limit :
  (forall content file d,
     d ∈ extractTestsFromContent content file ->
     1 <= length (split NL (ti_content d)) <= 501)
  /\ exists content d,
       d ∈ extractTestsFromContent content (u "a.spec.ts")
       /\ length (split NL (ti_content d)) = 501.
Proof.
  split.
  - intros content file d (i & p & m & Hi & _ & _ & ->)%elem_of_extractTestsFromContent.
    simpl. unfold extractTestBody.
    destruct (extractTestBody_loop_spec (drop i (split NL content)) [] (0%Z, false))
      as (k & Hk & -> & Hpos & _ & _ & Hb).
    simpl. rewrite length_drop in Hk.
    assert (1 <= k) as Hk1.
    { apply Hpos. intros Hnil. apply (f_equal length) in Hnil.
      rewrite length_drop in Hnil. simpl in Hnil. lia. }
    rewrite split_join.
    + rewrite length_take, length_drop. simpl in Hb. lia.
    + intros Hnil. apply (f_equal length) in Hnil.
      rewrite length_take, length_drop in Hnil. simpl in Hnil. lia.
    + apply Forall_take, Forall_drop, split_lines_no_sep.
  - set (content := join NL (u "test('a', () => {" :: repeat (u "  step();") 600)).
    set (m := {| m_index := 0; m_end := 8; m_groups := [(1, u "a")] |}).
    exists content, (declaration (split NL content) 0 (declPattern "test", test) m).
    split.
    + apply elem_of_extractTestsFromContent.
      exists 0, (declPattern "test", test), m.
      split; [vm_compute; lia|]. split; [apply elem_of_cons; by left|].
      split; [by vm_compute|]. reflexivity.
    + by vm_compute.
Qed.
